(** * madigan: market-data sources and portfolio accounting

    A shallow embedding of the simulation core of the madigan repository.

    Sources embedded, with the file of the source tree that holds them:
    - the accounting prototype, class [Portfolio] of the notebook
      "Accounting Logic" (in src/madigan/environments/cpp/DataSource.h, from
      line 750): module [Notebook];
    - the C++ class [Portfolio] of Portfolio.h (in
      src/madigan/environments/cpp/env.cpp, from line 265): module
      [PortfolioH];
    - the data-source classes of DataSource.h
      (src/madigan/environments/cpp/DataSource.h) and the implementation of
      [Synth] (in src/notebooks/DDR_DSR.ipynb, from line 341): module
      [DataSource];
    - the moving averages of the reward ratios [DSR] and [DDR] of the
      notebook in src/notebooks/DDR_DSR.ipynb: module [Ratios].

    Numbers.  The code computes with IEEE doubles.  The accounting code only
    adds, subtracts, multiplies, divides and takes absolute values, so it is
    embedded over the exact rationals [Q] (executable; equality of amounts is
    [==]).  The generator needs [sin], so it is embedded over the classical
    reals [R].  In both cases rounding is idealised away. *)

From Stdlib Require Import QArith Qabs Qminmax Reals Lra Lia Psatz.
From stdpp Require Import base option list gmap strings pretty.

(** ** Outcomes of a call

    A call either returns, throws, or leaves the defined behaviour of the
    language (an unchecked out-of-range index into a [std::vector] or an
    Eigen vector). *)

Inductive exn : Type :=
| KeyError (k : string)   (* Python: dict lookup of a missing key *)
| out_of_range            (* std::unordered_map::at on a missing key *)
| length_error            (* std::length_error *)
| ConfigError             (* madigan's ConfigError *)
| bad_any_cast.           (* std::any_cast at the wrong type *)

Inductive outcome (A : Type) : Type :=
| Return (a : A)
| Throw (e : exn)
| Undefined.

Arguments Return {A} a.
Arguments Throw {A} e.
Arguments Undefined {A}.

(** A method is a function from the object before the call to the object
    after it, paired with the outcome.  When a call throws, the object is the
    one at the point of the throw. *)

Definition method (S A : Type) : Type := S -> S * outcome A.

Definition ret {S A : Type} (a : A) : method S A := fun s => (s, Return a).

Definition throw {S A : Type} (e : exn) : method S A := fun s => (s, Throw e).

Definition bind {S A B : Type} (m : method S A) (k : A -> method S B) : method S B :=
  fun s =>
    match m s with
    | (s', Return a) => k a s'
    | (s', Throw e) => (s', Throw e)
    | (s', Undefined) => (s', Undefined)
    end.

Definition get {S : Type} : method S S := fun s => (s, Return s).

Definition put {S : Type} (s' : S) : method S unit := fun _ => (s', Return tt).

Declare Scope method_scope.
Delimit Scope method_scope with method.
Notation "x <- m ;; k" := (bind m (fun x => k))
  (at level 100, m at next level, right associativity) : method_scope.
Notation "m ;;; k" := (bind m (fun _ => k))
  (at level 100, right associativity) : method_scope.

(** ** The accounting prototype (notebook "Accounting Logic") *)

Module Notebook.
Local Open Scope Q_scope.

(** A Python [dict] from asset names to floats: insertion-ordered, with
    unique keys. *)
Definition dict : Type := list (string * Q).

Fixpoint dict_get (d : dict) (k : string) : option Q :=
  match d with
  | [] => None
  | (k', v) :: d' => if String.eqb k k' then Some v else dict_get d' k
  end.

(** [d[k] = v]: replaces the value of an existing key in place, appends a
    new key at the end. *)
Fixpoint dict_set (d : dict) (k : string) (v : Q) : dict :=
  match d with
  | [] => [(k, v)]
  | (k', v') :: d' =>
      if String.eqb k k' then (k', v) :: d' else (k', v') :: dict_set d' k v
  end.

(** [{asset: 0. for asset in assets}] *)
Definition dict_zeros (assets : list string) : dict :=
  fold_left (fun d a => dict_set d a 0) assets [].

Record Portfolio : Type := mkPortfolio {
  ledger : dict;
  init_cash : Q;
  type : string;
  _cash : Q;
  initial_margin : Q;
  _used_margin : Q;
  _borrowed_cash : Q;
  _available_margin : Q
}.

(** [Portfolio.__init__(assets, init_cash, acc_type, init_margin)] *)
Definition __init__ (assets : list string) (init_cash : Q) (acc_type : string)
    (init_margin : Q) : Portfolio :=
  {| ledger := dict_zeros assets;
     init_cash := init_cash;
     type := acc_type;
     _cash := init_cash;
     initial_margin := init_margin;
     _used_margin := 0;
     _borrowed_cash := 0;
     _available_margin := init_cash |}.

Definition set_ledger (d : dict) (self : Portfolio) : Portfolio :=
  {| ledger := d; init_cash := init_cash self; type := type self;
     _cash := _cash self; initial_margin := initial_margin self;
     _used_margin := _used_margin self; _borrowed_cash := _borrowed_cash self;
     _available_margin := _available_margin self |}.

Definition set_cash (c : Q) (self : Portfolio) : Portfolio :=
  {| ledger := ledger self; init_cash := init_cash self; type := type self;
     _cash := c; initial_margin := initial_margin self;
     _used_margin := _used_margin self; _borrowed_cash := _borrowed_cash self;
     _available_margin := _available_margin self |}.

Definition set_used_margin (m : Q) (self : Portfolio) : Portfolio :=
  {| ledger := ledger self; init_cash := init_cash self; type := type self;
     _cash := _cash self; initial_margin := initial_margin self;
     _used_margin := m; _borrowed_cash := _borrowed_cash self;
     _available_margin := _available_margin self |}.

Definition set_borrowed_cash (b : Q) (self : Portfolio) : Portfolio :=
  {| ledger := ledger self; init_cash := init_cash self; type := type self;
     _cash := _cash self; initial_margin := initial_margin self;
     _used_margin := _used_margin self; _borrowed_cash := b;
     _available_margin := _available_margin self |}.

(** [d[k]] as an expression: raises [KeyError] on a missing key. *)
Definition subscript {S : Type} (d : dict) (k : string) : method S Q :=
  match dict_get d k with
  | Some v => ret v
  | None => throw (KeyError k)
  end.

(** [sum(current_prices[k]*v for k, v in items)], accumulated from the left
    starting at [acc]. *)
Fixpoint sum_values (current_prices : dict) (items : dict) (acc : Q) : outcome Q :=
  match items with
  | [] => Return acc
  | (k, v) :: items' =>
      match dict_get current_prices k with
      | Some p => sum_values current_prices items' (acc + p * v)
      | None => Throw (KeyError k)
      end
  end.

(** The property [assets_value]. *)
Definition assets_value (current_prices : dict) (self : Portfolio) : outcome Q :=
  sum_values current_prices (ledger self) 0.

(** The property [equity]:
    [self._cash + self.assets_value - self._borrowed_cash]. *)
Definition equity (current_prices : dict) (self : Portfolio) : outcome Q :=
  match assets_value current_prices self with
  | Return a => Return (_cash self + a - _borrowed_cash self)
  | Throw e => Throw e
  | Undefined => Undefined
  end.

Local Open Scope method_scope.

(** [self.ledger[asset_name] += units] *)
Definition ledger_add (asset_name : string) (units : Q) : method Portfolio unit :=
  self <- get ;;
  old <- subscript (ledger self) asset_name ;;
  put (set_ledger (dict_set (ledger self) asset_name (old + units)) self).

(** [def transaction_cash(self, asset_name, units)] *)
Definition transaction_cash (current_prices : dict) (asset_name : string)
    (units : Q) : method Portfolio unit :=
  price <- subscript current_prices asset_name ;;
  let amount := price * units in
  self <- get ;;
  put (set_cash (_cash self - amount) self) ;;;
  ledger_add asset_name units.

(** [def transaction_margin(self, asset_name, units)] *)
Definition transaction_margin (current_prices : dict) (asset_name : string)
    (units : Q) : method Portfolio unit :=
  price <- subscript current_prices asset_name ;;
  let amount := price * units in
  self <- get ;;
  let used_margin := amount * initial_margin self in
  put (set_borrowed_cash
         (_borrowed_cash self + amount * (1 - initial_margin self)) self) ;;;
  self <- get ;;
  put (set_cash (_cash self - used_margin) self) ;;;
  self <- get ;;
  put (set_used_margin (_used_margin self + used_margin) self) ;;;
  ledger_add asset_name units.

(** [def order(self, asset_name, units)]: dispatches on the account type and
    does nothing for any other type string. *)
Definition order (current_prices : dict) (asset_name : string) (units : Q)
    : method Portfolio unit :=
  self <- get ;;
  if String.eqb (type self) "cash" then
    transaction_cash current_prices asset_name units
  else if String.eqb (type self) "margin" then
    transaction_margin current_prices asset_name units
  else ret tt.

(** [sum(current_prices[k]*v for k, v in items if v < 0.)]: the price of a
    key is only looked up when its holding is negative. *)
Fixpoint sum_negative_values (current_prices : dict) (items : dict) (acc : Q)
    : outcome Q :=
  match items with
  | [] => Return acc
  | (k, v) :: items' =>
      if Qlt_le_dec v 0 then
        match dict_get current_prices k with
        | Some p => sum_negative_values current_prices items' (acc + p * v)
        | None => Throw (KeyError k)
        end
      else sum_negative_values current_prices items' acc
  end.

(** The property [borrowed_asset_value]. *)
Definition borrowed_asset_value (current_prices : dict) (self : Portfolio)
    : outcome Q :=
  sum_negative_values current_prices (ledger self) 0.

(** [port.order(a1, u1).order(a2, u2)...]: [order] returns [self], so orders
    chain; the orders of a list are placed one after the other. *)
Fixpoint order_all (current_prices : dict) (orders : list (string * Q))
    : method Portfolio unit :=
  match orders with
  | [] => ret tt
  | (asset_name, units) :: orders' =>
      order current_prices asset_name units ;;;
      order_all current_prices orders'
  end.

(** The keys of a dict, in insertion order. *)
Definition keys (d : dict) : list string := map fst d.

(** The leveraged-account scenario: one asset priced at 10.0, one margin
    account with 1,000,000 in cash and a margin fraction of 0.2. *)
Definition scenario_prices : dict := [("X"%string, 10)].

Definition scenario_account : Portfolio :=
  __init__ ["X"%string] 1000000 "margin" (2 # 10).

End Notebook.

(** ** The C++ [Portfolio] (Portfolio.h) *)

Module PortfolioH.
Local Open Scope Q_scope.

Record Asset : Type := mkAsset {
  name : string;
  code : string;
  exchange : string;
  bpMultiplier : Q
}.

Definition Assets : Type := list Asset.

(** [Ledger], [AmountVector] and the price view are Eigen vectors of
    doubles. *)
Abbreviation Ledger := (list Q).

Record Portfolio : Type := mkPortfolio {
  id_ : string;
  initCash_ : Q;
  assets_ : Assets;
  cash_ : Q;
  ledger_ : Ledger;
  usedMargin_ : Q;
  meanEntryPrices_ : Ledger;
  borrowedMargin_ : Ledger;
  requiredMargin_ : Q;
  maintenanceMargin_ : Q;
  assetIdx_ : gmap string nat;      (* std::unordered_map<string, unsigned int> *)
  currentPrices_ : list Q           (* view on the borrowed source's prices *)
}.

Definition set_assetIdx (m : gmap string nat) (p : Portfolio) : Portfolio :=
  {| id_ := id_ p; initCash_ := initCash_ p; assets_ := assets_ p;
     cash_ := cash_ p; ledger_ := ledger_ p; usedMargin_ := usedMargin_ p;
     meanEntryPrices_ := meanEntryPrices_ p;
     borrowedMargin_ := borrowedMargin_ p;
     requiredMargin_ := requiredMargin_ p;
     maintenanceMargin_ := maintenanceMargin_ p;
     assetIdx_ := m; currentPrices_ := currentPrices_ p |}.

(** [void setRequiredMargin(double reqMargin){ requiredMargin_=reqMargin;}] *)
Definition setRequiredMargin (reqMargin : Q) (p : Portfolio) : Portfolio :=
  {| id_ := id_ p; initCash_ := initCash_ p; assets_ := assets_ p;
     cash_ := cash_ p; ledger_ := ledger_ p; usedMargin_ := usedMargin_ p;
     meanEntryPrices_ := meanEntryPrices_ p;
     borrowedMargin_ := borrowedMargin_ p;
     requiredMargin_ := reqMargin;
     maintenanceMargin_ := maintenanceMargin_ p;
     assetIdx_ := assetIdx_ p; currentPrices_ := currentPrices_ p |}.

(** The borrowed source refreshes the price view in place when it
    advances. *)
Definition refreshPrices (prices : list Q) (p : Portfolio) : Portfolio :=
  {| id_ := id_ p; initCash_ := initCash_ p; assets_ := assets_ p;
     cash_ := cash_ p; ledger_ := ledger_ p; usedMargin_ := usedMargin_ p;
     meanEntryPrices_ := meanEntryPrices_ p;
     borrowedMargin_ := borrowedMargin_ p;
     requiredMargin_ := requiredMargin_ p;
     maintenanceMargin_ := maintenanceMargin_ p;
     assetIdx_ := assetIdx_ p; currentPrices_ := prices |}.

(** [int nAssets() const { return assets_.size();}] *)
Definition nAssets (p : Portfolio) : nat := length (assets_ p).

(** Unchecked coefficient access [v(i)] of an Eigen vector. *)
Definition coeff (v : Ledger) (i : Z) : outcome Q :=
  if (i <? 0)%Z then Undefined
  else match v !! Z.to_nat i with
       | Some x => Return x
       | None => Undefined
       end.

(** Conversion of an [unsigned int] argument to an [int] parameter. *)
Definition int_of_unsigned (n : nat) : Z :=
  let z := Z.of_nat n in
  if (z <? 2 ^ 31)%Z then z else (z - 2 ^ 32)%Z.

(** [double operator[](string code) { return ledger_(assetIdx_[code]); }]
    [std::unordered_map::operator[]] inserts a value-initialised entry (index
    0) for a missing key. *)
Definition op_index_code (code : string) : method Portfolio Q :=
  fun p =>
    match assetIdx_ p !! code with
    | Some i => (p, coeff (ledger_ p) (Z.of_nat i))
    | None =>
        (set_assetIdx (<[code := 0%nat]> (assetIdx_ p)) p,
         coeff (ledger_ p) 0%Z)
    end.

(** [double operator[](int assetIdx) { return ledger_(assetIdx); }] *)
Definition op_index_int (assetIdx : Z) : method Portfolio Q :=
  fun p => (p, coeff (ledger_ p) assetIdx).

(** *** The transaction operation

    The body of [handleTransaction] is not in the sources.  Section 4.2 of
    the specification gives an update block and a rule with three cases, by
    what the trade does to the position [L] held in the asset:
    - it opens a position or increases one without changing its sign
      ([0 <= L * units]): the update block, and the mean entry price becomes
      the size-weighted average;
    - it reduces the position without crossing zero: the reduce rule;
    - it flips the sign: a full close, then a fresh open of the residual.
    The reduce rule stands in the place of the update block for the units it
    closes: the cash-account scenario of section 8 (1000 units bought at 10.0
    and sold at 11.0 take the cash from 990,000 to 1,001,000) has the cash
    receive the margin released, 10,000, and the realised profit, 1,000. *)

(** Modelled from the spec: "meanEntryPrice becomes the size-weighted average
    of the prior and new entries", for a position [L] entered at [m] on
    average and [units] more at [price] (the body of [handleTransaction] is
    not in the sources).  A position that stays empty keeps its entry. *)
Definition weightedMeanEntry (L m units price : Q) : Q :=
  if Qeq_bool (L + units) 0 then m
  else (L * m + units * price) / (L + units).

(** Modelled from the spec: the update block of section 4.2,
      [notional = units * price], [fundedByCash = notional * r],
      [borrowedDelta = notional * (1 - r)],
      [cash -= fundedByCash + transactionCost],
      [borrowedMargin[asset] += borrowedDelta],
      [usedMargin += |fundedByCash|], [ledger[asset] += units],
    on asset [i] with the portfolio's required-margin fraction (the body of
    [handleTransaction] is not in the sources).  [L] and [B] are the position
    and the borrowed margin of the asset before the trade, [meanEntryPrice]
    the mean entry price after it. *)
Definition openPosition (i : nat) (L B meanEntryPrice : Q)
    (transactionPrice units transactionCost : Q) (p : Portfolio) : Portfolio :=
  let notional := units * transactionPrice in
  let fundedByCash := notional * requiredMargin_ p in
  let borrowedDelta := notional * (1 - requiredMargin_ p) in
  {| id_ := id_ p; initCash_ := initCash_ p; assets_ := assets_ p;
     cash_ := cash_ p - (fundedByCash + transactionCost);
     ledger_ := <[i := L + units]> (ledger_ p);
     usedMargin_ := usedMargin_ p + Qabs fundedByCash;
     meanEntryPrices_ := <[i := meanEntryPrice]> (meanEntryPrices_ p);
     borrowedMargin_ := <[i := B + borrowedDelta]> (borrowedMargin_ p);
     requiredMargin_ := requiredMargin_ p;
     maintenanceMargin_ := maintenanceMargin_ p;
     assetIdx_ := assetIdx_ p;
     currentPrices_ := currentPrices_ p |}.

(** Modelled from the spec: "the closed fraction" of a position [L] that a
    trade of the opposite sign reduces by [units]. *)
Definition closedFraction (L units : Q) : Q := (- units) / L.

(** Modelled from the spec: the "notional funded by cash at entry" of
    invariant 4, for a position [L] entered at [m] on average against which
    [B] is borrowed: the entry notional less the borrowed margin of the
    asset.  The update block puts [notional * r] of every opening trade here
    and [notional * (1 - r)] in the borrowed margin. *)
Definition fundedAtEntry (L m B : Q) : Q := L * m - B.

(** Modelled from the spec: the reduce rule of section 4.2, "realize P&L =
    (price - meanEntryPrice) * unitsClosed into cash, leave meanEntryPrice
    unchanged, and reduce usedMargin/borrowedMargin proportionally to the
    closed fraction" (the body of [handleTransaction] is not in the sources).
    [unitsClosed] has the sign of the position, so that a long position sold
    above its entry and a short position bought back below it both realise a
    profit.  The borrowed margin of the asset loses its closed fraction.  The
    used margin is one number for the whole portfolio; the part of it that
    belongs to the asset is, by invariant 4, the notional funded by cash at
    entry in absolute value, and it loses its closed fraction too; the cash
    so released returns to the cash with the realised profit. *)
Definition reducePosition (i : nat) (L m B : Q)
    (transactionPrice units transactionCost : Q) (p : Portfolio) : Portfolio :=
  let unitsClosed := - units in
  let pnl := (transactionPrice - m) * unitsClosed in
  {| id_ := id_ p; initCash_ := initCash_ p; assets_ := assets_ p;
     cash_ :=
       cash_ p + closedFraction L units * fundedAtEntry L m B + pnl
       - transactionCost;
     ledger_ := <[i := L + units]> (ledger_ p);
     usedMargin_ :=
       usedMargin_ p - closedFraction L units * Qabs (fundedAtEntry L m B);
     meanEntryPrices_ := meanEntryPrices_ p;
     borrowedMargin_ :=
       <[i := B - closedFraction L units * B]> (borrowedMargin_ p);
     requiredMargin_ := requiredMargin_ p;
     maintenanceMargin_ := maintenanceMargin_ p;
     assetIdx_ := assetIdx_ p;
     currentPrices_ := currentPrices_ p |}.

(** Modelled from the spec: the three cases of section 4.2 for a transaction
    on asset [i] (the body of [handleTransaction] is not in the sources).
    [L], [m] and [B] are the position, the mean entry price and the borrowed
    margin of the asset before the trade.  A trade that flips the sign is
    "a full close of the existing position (realize its P&L) followed by a
    fresh open at price for the residual units, with meanEntryPrice reset to
    price"; the transaction cost is paid once, with the close. *)
Definition transact (i : nat) (L m B : Q)
    (transactionPrice units transactionCost : Q) (p : Portfolio) : Portfolio :=
  if Qle_bool 0 (L * units) then
    openPosition i L B (weightedMeanEntry L m units transactionPrice)
      transactionPrice units transactionCost p
  else if Qle_bool (Qabs units) (Qabs L) then
    reducePosition i L m B transactionPrice units transactionCost p
  else
    let closed :=
      reducePosition i L m B transactionPrice (- L) transactionCost p in
    openPosition i (L + - L) (B - closedFraction L (- L) * B)
      transactionPrice transactionPrice (units + L) 0 closed.

(** Modelled from the spec: [Portfolio::handleTransaction(int, double,
    double, double)], whose body is not in the sources: the transaction of
    section 4.2 on the asset at [assetIdx], read with unchecked coefficient
    access as in [operator[]]. *)
Definition handleTransaction_int (assetIdx : Z)
    (transactionPrice units transactionCost : Q) : method Portfolio unit :=
  fun p =>
    match coeff (ledger_ p) assetIdx,
          coeff (meanEntryPrices_ p) assetIdx,
          coeff (borrowedMargin_ p) assetIdx with
    | Return L, Return m, Return B =>
        (transact (Z.to_nat assetIdx) L m B
           transactionPrice units transactionCost p, Return tt)
    | _, _, _ => (p, Undefined)
    end.

(** Modelled from the spec: [Portfolio::close(int, double, double)], whose
    body is not in the sources: "computes the exact units needed to flatten
    the asset's position and delegates to the transaction operation". *)
Definition close_int (assetIdx : Z) (transactionPrice transactionCost : Q)
    : method Portfolio unit :=
  fun p =>
    match coeff (ledger_ p) assetIdx with
    | Return L =>
        handleTransaction_int assetIdx transactionPrice (- L) transactionCost p
    | Throw e => (p, Throw e)
    | Undefined => (p, Undefined)
    end.

(** [void close(string assetCode, double transactionPrice, double transactionCost)]
    [{ close(assetIdx_.at(assetCode), transactionPrice, transactionCost); }] *)
Definition close_string (assetCode : string)
    (transactionPrice transactionCost : Q) : method Portfolio unit :=
  fun p =>
    match assetIdx_ p !! assetCode with
    | Some i => close_int (int_of_unsigned i) transactionPrice transactionCost p
    | None => (p, Throw out_of_range)
    end.

(** [v.sum()] and [v.dot(w)] of Eigen vectors. *)
Definition vsum (v : list Q) : Q := fold_right Qplus 0 v.

Definition vdot (v w : list Q) : Q := vsum (zip_with Qmult v w).

(** Modelled from the spec: [Portfolio::equity()], whose body is not in the
    sources: "equity = cash + sum(position_i * price_i) -
    sum(borrowedMargin_i)". *)
Definition equity (p : Portfolio) : Q :=
  cash_ p + vdot (ledger_ p) (currentPrices_ p) - vsum (borrowedMargin_ p).

(** Modelled from the spec: [Portfolio::registerAssets], whose body is not
    in the sources: the asset set fixes "a stable positional index", so each
    asset code gets its position in the asset list. *)
Definition registerAssets (assets : Assets) : gmap string nat :=
  list_to_map (zip (map code assets) (seq 0 (length assets))).

Definition zeros (n : nat) : list Q := repeat 0 n.

(** Modelled from the spec: the constructor
    [Portfolio(string id, Assets assets, double initCash)], whose body is not
    in the sources.  The scalar members take the default member initialisers
    of Portfolio.h, the assets are registered, and the ledgers and the
    default prices start at zero. *)
Definition Portfolio_new (id : string) (assets : Assets) (initCash : Q)
    : Portfolio :=
  {| id_ := id; initCash_ := initCash; assets_ := assets;
     cash_ := initCash;
     ledger_ := zeros (length assets);
     usedMargin_ := 0;
     meanEntryPrices_ := zeros (length assets);
     borrowedMargin_ := zeros (length assets);
     requiredMargin_ := 1;
     maintenanceMargin_ := 25 # 100;
     assetIdx_ := registerAssets assets;
     currentPrices_ := zeros (length assets) |}.

(** The per-asset vectors of a portfolio all have one entry per asset. *)
Definition sized (p : Portfolio) : Prop :=
  length (ledger_ p) = nAssets p /\
  length (meanEntryPrices_ p) = nAssets p /\
  length (borrowedMargin_ p) = nAssets p /\
  length (currentPrices_ p) = nAssets p.

(** A leveraged portfolio over the single asset X, priced at 10.0, with
    1,000,000 in cash and a required-margin fraction of 0.2. *)
Definition asset_X : Asset :=
  {| name := "X"; code := "X"; exchange := ""; bpMultiplier := 1 |}.

Definition leveraged_portfolio : Portfolio :=
  setRequiredMargin (2 # 10)
    (refreshPrices [10] (Portfolio_new "leveraged" [asset_X] 1000000)).

(** The same portfolio after buying 100 units of X at 10.0, and then after
    the expression [portfolio["bogus"]] has been evaluated on it. *)
Definition holding_portfolio : Portfolio :=
  fst (handleTransaction_int 0 10 100 0 leveraged_portfolio).

Definition indexed_portfolio : Portfolio :=
  fst (op_index_code "bogus" holding_portfolio).

(** The leveraged portfolio after buying 1000 units of X at 10.0, and the
    same book once the price of X has moved to 11.0. *)
Definition bought_portfolio : Portfolio :=
  fst (handleTransaction_int 0 10 1000 0 leveraged_portfolio).

Definition moved_portfolio : Portfolio := refreshPrices [11] bought_portfolio.

(** The cash account of the scenario of section 8: the same asset and cash
    with the default required-margin fraction of 1. *)
Definition cash_portfolio : Portfolio :=
  refreshPrices [10] (Portfolio_new "cash" [asset_X] 1000000).

(** The borrowed margin of every asset is the part [1 - r] of the entry
    notional of its position, as the update block borrows it. *)
Definition marginConsistent (p : Portfolio) : Prop :=
  forall i L m B,
    ledger_ p !! i = Some L -> meanEntryPrices_ p !! i = Some m ->
    borrowedMargin_ p !! i = Some B ->
    B == L * m * (1 - requiredMargin_ p).

(** Nothing is borrowed against an asset in which no position is held. *)
Definition flatOwesNothing (p : Portfolio) : Prop :=
  forall i L B,
    ledger_ p !! i = Some L -> borrowedMargin_ p !! i = Some B ->
    L == 0 -> B == 0.

End PortfolioH.

(** ** Market-data sources (DataSource.h, DataSource.cpp) *)

Module DataSource.
Local Open Scope R_scope.

Abbreviation PriceVector := (list R).
Abbreviation PriceMatrix := (list (list R)).

(** [#define PI2 (3.141592653589793238463*2)]: two pi to double precision,
    idealised as two pi. *)
Definition PI2 : R := 2 * PI.

(** *** The interface [DataSource<T>]

    The pure-virtual members and the two virtual members with a default
    body. *)

Class DataSourceClass (T S : Type) : Type := mkDataSource {
  nFeats : S -> Z;
  getData : method S T;
  currentData : S -> T;
  currentPrices : S -> PriceVector;
  reset : S -> S;
  currentTime : S -> nat;
  isDateTime : S -> bool;
  dataEnd : S -> bool
}.

(** [virtual bool isDateTime() const { return false; }] *)
Definition DataSource_isDateTime {S : Type} (_ : S) : bool := false.

(** [virtual bool dataEnd() const { return false; }] *)
Definition DataSource_dataEnd {S : Type} (_ : S) : bool := false.




(** *** Synth (DataSource.cpp) *)

Record Synth : Type := mkSynth {
  assets : list string;      (* the assets, by the names they are made from *)
  nAssets : nat;
  dX : R;
  freq : list R;
  mu : list R;
  amp : list R;
  initPhase : list R;
  x : list R;
  timestamp_ : nat;
  currentData_ : PriceVector
}.

(** The object before a constructor body runs: the default member
    initialiser [double dX{0.01}] and empty vectors. *)
Definition Synth_fresh : Synth :=
  {| assets := []; nAssets := 0; dX := 1 / 100; freq := []; mu := [];
     amp := []; initPhase := []; x := []; timestamp_ := 0;
     currentData_ := [] |}.

(** The loop of [initParams] that appends one asset per frequency. *)
Fixpoint push_assets (i n : nat) (assets : list string) : list string :=
  match n with
  | O => assets
  | S n' => push_assets (S i) n' (assets ++ ["sine_" +:+ pretty i])
  end.

(** [void Synth::initParams(_freq, _mu, _amp, _phase, _dX)].  The entries of
    [currentData_] after [resize] are unspecified; they are written before
    they are read. *)
Definition initParams (_freq _mu _amp _phase : list R) (_dX : R) (this : Synth)
    : Synth :=
  let assets' := push_assets 0 (length _freq) (assets this) in
  {| assets := assets'; nAssets := length assets'; dX := _dX;
     freq := _freq; mu := _mu; amp := _amp; initPhase := _phase;
     x := _phase; timestamp_ := timestamp_ this;
     currentData_ := repeat 0 (length assets') |}.

(** [Synth::Synth()]: the body declares a local [_dX] but passes the member
    [dX]. *)
Definition Synth_default : Synth :=
  let _dX := 1 / 100 in
  let freq := [1; 3 / 10; 2; 1 / 2] in
  let mu := [2; 21 / 10; 22 / 10; 23 / 10] in
  let amp := [1; 12 / 10; 13 / 10; 1] in
  let phase := [0; 1; 2; 1] in
  initParams freq mu amp phase (dX Synth_fresh) Synth_fresh.

(** [Synth::Synth(vector<double> _freq, _mu, _amp, _phase, double _dX)] *)
Definition Synth_of_vectors (_freq _mu _amp _phase : list R) (_dX : R)
    : outcome Synth :=
  if ((length _freq =? length _mu)%nat && (length _mu =? length _amp)%nat
      && (length _amp =? length _phase)%nat)%bool
  then Return (initParams _freq _mu _amp _phase _dX Synth_fresh)
  else Throw length_error.

(** [Config] is a [std::unordered_map<string, std::any>]. *)
#[local] Unset Elimination Schemes.
Inductive any : Type :=
| any_empty
| any_double (d : R)
| any_vector (v : list R)
| any_Config (c : gmap string any)
| any_string (s : string).
#[local] Set Elimination Schemes.

Definition Config : Type := gmap string any.

Definition any_cast_Config (a : any) : outcome Config :=
  match a with any_Config c => Return c | _ => Throw bad_any_cast end.

Definition any_cast_vector (a : any) : outcome (list R) :=
  match a with any_vector v => Return v | _ => Throw bad_any_cast end.

Definition any_cast_double (a : any) : outcome R :=
  match a with any_double d => Return d | _ => Throw bad_any_cast end.

(** [params[key]] on a [Config]: a missing key yields an empty [std::any],
    which no cast accepts. *)
Definition Config_index (params : Config) (key : string) : any :=
  default any_empty (params !! key).

Definition obind {A B : Type} (o : outcome A) (k : A -> outcome B) : outcome B :=
  match o with
  | Return a => k a
  | Throw e => Throw e
  | Undefined => Undefined
  end.

(** The loop over the required keys: the first missing key throws. *)
Fixpoint check_keys (params : Config) (keys : list string) : outcome unit :=
  match keys with
  | [] => Return tt
  | key :: keys' =>
      match params !! key with
      | None => Throw ConfigError
      | Some _ => check_keys params keys'
      end
  end.

(** [Synth::Synth(Config config)].  [allParamsPresent] is still [true]
    whenever control reaches its test, as every path that would clear it
    throws first. *)
Definition Synth_of_Config (config : Config) : outcome Synth :=
  let allParamsPresent := true in
  match config !! "generator_params" with
  | None => Throw ConfigError
  | Some gp =>
      obind (any_cast_Config gp) (fun params =>
      obind (check_keys params ["freq"; "mu"; "amp"; "phase"; "dX"]) (fun _ =>
      if allParamsPresent then
        obind (any_cast_vector (Config_index params "freq")) (fun freq =>
        obind (any_cast_vector (Config_index params "mu")) (fun mu =>
        obind (any_cast_vector (Config_index params "amp")) (fun amp =>
        obind (any_cast_vector (Config_index params "phase")) (fun phase =>
        obind (any_cast_double (Config_index params "dX")) (fun dX =>
        Return (initParams freq mu amp phase dX Synth_fresh))))))
      else
        let freq := [1; 3 / 10; 2; 1 / 2] in
        let mu := [2; 21 / 10; 22 / 10; 23 / 10] in
        let amp := [1; 12 / 10; 13 / 10; 1] in
        let phase := [0; 1; 2; 1] in
        let dX := 1 / 100 in
        Return (initParams freq mu amp phase dX Synth_fresh)))
  end.

(** One iteration of the loop of [Synth::getData]:
    [currentData_[i] = mu[i] + amp[i] * std::sin(PI2*x[i]*freq[i]);]
    [x[i] += dX;] *)
Definition getData_step (i : nat) : method Synth unit :=
  fun s =>
    match mu s !! i, amp s !! i, x s !! i, freq s !! i with
    | Some m, Some a, Some xi, Some f =>
        if (i <? length (currentData_ s))%nat then
          ({| assets := assets s; nAssets := nAssets s; dX := dX s;
              freq := freq s; mu := mu s; amp := amp s;
              initPhase := initPhase s;
              x := <[i := xi + dX s]> (x s);
              timestamp_ := timestamp_ s;
              currentData_ :=
                <[i := m + a * sin (PI2 * xi * f)]> (currentData_ s) |},
           Return tt)
        else (s, Undefined)
    | _, _, _, _ => (s, Undefined)
    end.

(** [for (int i=0; i < nAssets; i++)], with [k] iterations left. *)
Fixpoint getData_loop (k i : nat) : method Synth unit :=
  match k with
  | O => ret tt
  | S k' => bind (getData_step i) (fun _ => getData_loop k' (S i))
  end.

(** [const PriceVector& Synth::getData()] *)
Definition Synth_getData : method Synth PriceVector :=
  bind (fun s => getData_loop (nAssets s) 0 s)
       (fun _ => fun s => (s, Return (currentData_ s))).

#[export] Instance Synth_DataSource : DataSourceClass PriceVector Synth :=
  {| nFeats := fun s => Z.of_nat (nAssets s);
     getData := Synth_getData;
     currentData := currentData_;
     currentPrices := currentData_;
     reset := fun s => s;                 (* void reset(){} *)
     currentTime := timestamp_;
     isDateTime := DataSource_isDateTime;
     dataEnd := DataSource_dataEnd |}.

(** [n] successive calls of [getData]; the observations are discarded. *)
Fixpoint advance {T S : Type} `{DataSourceClass T S} (n : nat) : method S unit :=
  match n with
  | O => ret tt
  | S n' => bind getData (fun _ => advance n')
  end.

(** The formula of the specification for the periodic generator:
    [price_i(t) = mu_i + amp_i * sin(2 pi (phase_i + t freq_i dX))]. *)
Definition spec_price (mu amp phase freq dX : R) (t : nat) : R :=
  mu + amp * sin (2 * PI * (phase + INR t * freq * dX)).

(** What the code computes at its call number [t], counted from 0. *)
Definition code_price (mu amp phase freq dX : R) (t : nat) : R :=
  mu + amp * sin (PI2 * (phase + INR t * dX) * freq).

(** The vectors of a generator all have [n] entries. *)
Definition shaped (n : nat) (s : Synth) : Prop :=
  length (freq s) = n /\ length (mu s) = n /\ length (amp s) = n /\
  length (x s) = n /\ length (currentData_ s) = n /\ nAssets s = n.

(** The parameters that [getData] only reads. *)
Definition same_params (s s' : Synth) : Prop :=
  freq s' = freq s /\ mu s' = mu s /\ amp s' = amp s /\ dX s' = dX s /\
  initPhase s' = initPhase s.

(** The generator made from [f], [m], [a], [ph] and [d] after [t] calls: its
    abscissas have moved [t] steps from the phases. *)
Definition after (f m a ph : list R) (d : R) (t : nat) (s : Synth) : Prop :=
  shaped (length f) s /\ freq s = f /\ mu s = m /\ amp s = a /\ dX s = d /\
  forall j p, ph !! j = Some p -> x s !! j = Some (p + INR t * d).

(** A configuration with every required key, two frequencies and one value
    in each of the other per-asset vectors. *)
Definition uneven_config : Config :=
  {[ "generator_params"%string :=
       any_Config
         (<[ "freq"%string := any_vector [1; 2] ]>
          (<[ "mu"%string := any_vector [1] ]>
           (<[ "amp"%string := any_vector [1] ]>
            (<[ "phase"%string := any_vector [0] ]>
             (<[ "dX"%string := any_double (1 / 100) ]> ∅))))) ]}.

(** *** HDFSourceSingle (DataSource.h; only [dataEnd] and the accessors have
    a body in the sources)

    [size_t] counters are far below 2^64 and are natural numbers here. *)







(** *** HDFSourceMulti (DataSource.h) *)

Record HDFSourceMulti : Type := mkHDFSourceMulti {
  m_filepath : string;
  m_groupKey : string;
  m_timestampKey : string;
  m_priceKey : string;
  m_cacheSize : Z;
  prices_ : PriceVector;
  m_currentPrices_ : PriceVector;
  data_ : PriceMatrix;
  m_currentData_ : PriceMatrix;
  timestamps_ : list Z;
  m_timestamp_ : nat;
  m_currentIdx_ : Z
}.

(** [void reset(){}] *)
Definition HDFSourceMulti_reset (m : HDFSourceMulti) : HDFSourceMulti := m.

(** [int size(){ return prices_.size();}] *)
Definition HDFSourceMulti_size (m : HDFSourceMulti) : Z :=
  Z.of_nat (length (prices_ m)).

(** The class does not override [dataEnd]. *)
Definition HDFSourceMulti_dataEnd (m : HDFSourceMulti) : bool :=
  DataSource_dataEnd m.

(** [bool isDateTime() const override { return true; }] *)
Definition HDFSourceMulti_isDateTime (m : HDFSourceMulti) : bool := true.

(** *** Composite (DataSource.h) *)

(** A [std::unique_ptr<DataSourceTick>]: an object of some class that
    implements the interface, with its virtual members. *)
Record Source : Type := mkSource {
  src_state : Type;
  src_class : DataSourceClass PriceVector src_state;
  src_obj : src_state
}.

Record Composite : Type := mkComposite {
  dataSources_ : list Source;
  c_currentPrices_ : PriceVector;
  c_currentData_ : PriceVector;
  c_timestamp_ : nat;
  c_nFeats_ : Z
}.

(** [source->reset()] through the virtual table. *)
Definition Source_reset (s : Source) : Source :=
  {| src_state := src_state s; src_class := src_class s;
     src_obj := @reset _ _ (src_class s) (src_obj s) |}.

(** The calls a [Composite] makes on its children, by position. *)
Inductive call : Type :=
| call_reset (child : nat)
| call_getData (child : nat).

(** [for (auto& source: dataSources_){ source->reset(); }], from child
    number [i] on, with the calls made. *)
Fixpoint reset_sources (i : nat) (sources : list Source)
    : list Source * list call :=
  match sources with
  | [] => ([], [])
  | source :: rest =>
      let source' := Source_reset source in
      let (rest', calls) := reset_sources (S i) rest in
      (source' :: rest', call_reset i :: calls)
  end.

(** [void Composite::reset()] *)
Definition Composite_reset (c : Composite) : Composite * list call :=
  let (sources', calls) := reset_sources 0 (dataSources_ c) in
  ({| dataSources_ := sources';
      c_currentPrices_ := c_currentPrices_ c;
      c_currentData_ := c_currentData_ c;
      c_timestamp_ := c_timestamp_ c;
      c_nFeats_ := c_nFeats_ c |}, calls).

(** A periodic generator as a child of a [Composite]. *)
Definition Source_of_Synth (s : Synth) : Source :=
  {| src_state := Synth; src_class := Synth_DataSource; src_obj := s |}.

(** The name [initParams] gives to asset number [i]. *)
Definition sine_name (i : nat) : string := "sine_" +:+ pretty i.

(** The generator parameters of a [Config] have the five required keys with
    values of the types the constructor casts to. *)
Definition typed_params (params : Config) (f m a ph : list R) (d : R) : Prop :=
  params !! "freq" = Some (any_vector f) /\
  params !! "mu" = Some (any_vector m) /\
  params !! "amp" = Some (any_vector a) /\
  params !! "phase" = Some (any_vector ph) /\
  params !! "dX" = Some (any_double d).

(** A configuration for one asset, with a key the constructor does not
    know beside the required ones. *)
Definition one_asset_config : Config :=
  {[ "generator_params"%string :=
       any_Config
         (<[ "freq"%string := any_vector [2] ]>
          (<[ "mu"%string := any_vector [5] ]>
           (<[ "amp"%string := any_vector [1] ]>
            (<[ "phase"%string := any_vector [0] ]>
             (<[ "dX"%string := any_double (1 / 100) ]>
              (<[ "noise"%string := any_double 3 ]> ∅)))))) ]}.



(** *** A child that counts its calls

    A [Composite] holds its children as [unique_ptr<DataSourceTick>], so a
    child may be of any class that implements the interface.  This one is
    not a class of the repository: it only counts the calls of [reset] and of
    [getData] it receives, to observe what a [Composite] calls. *)
Record Probe : Type := mkProbe {
  resets : nat;
  advances : nat
}.

#[export] Instance Probe_DataSource : DataSourceClass PriceVector Probe :=
  {| nFeats := fun _ => 1%Z;
     getData := fun s =>
       ({| resets := resets s; advances := S (advances s) |}, Return [0]);
     currentData := fun _ => [0];
     currentPrices := fun _ => [0];
     reset := fun s => {| resets := S (resets s); advances := advances s |};
     currentTime := advances;
     isDateTime := DataSource_isDateTime;
     dataEnd := DataSource_dataEnd |}.

Definition Source_of_Probe (s : Probe) : Source :=
  {| src_state := Probe; src_class := Probe_DataSource; src_obj := s |}.

(** A composite of a probe that has seen no call, the default periodic
    generator, and a probe that has seen five resets and two advances. *)
Definition probed_composite : Composite :=
  {| dataSources_ :=
       [Source_of_Probe {| resets := 0; advances := 0 |};
        Source_of_Synth Synth_default;
        Source_of_Probe {| resets := 5; advances := 2 |}];
     c_currentPrices_ := [0; 0; 0; 0; 0; 0];
     c_currentData_ := [0; 0; 0; 0; 0; 0];
     c_timestamp_ := 7;
     c_nFeats_ := 6 |}.

End DataSource.

(** ** The reward ratios (notebook "Ideal volatility adjustment for RL", in
    src/notebooks/DDR_DSR.ipynb) *)

Module Ratios.
Local Open Scope Q_scope.

(** The outcome of a Python expression that may raise [TypeError]. *)
Inductive py (X : Type) : Type :=
| Ok (x : X)
| TypeError.

Arguments Ok {X} x.
Arguments TypeError {X}.

(** The moving averages of a [DSR]: [None] until the first call installs
    arrays. *)
Record DSR : Type := mkDSR {
  dsr_n : Q;
  dsr_A : option (list Q);
  dsr_B : option (list Q)
}.

(** [DSR.__init__(self, adaptation_rate, nassets)] *)
Definition DSR_init (adaptation_rate : Q) (nassets : nat) : DSR :=
  {| dsr_n := adaptation_rate; dsr_A := None; dsr_B := None |}.

(** [raw_return - self.A] and the like: a scalar with an array, element by
    element; with [None] it raises [TypeError]. *)
Definition scalar_minus (r : Q) (a : option (list Q)) : py (list Q) :=
  match a with
  | Some a => Ok (map (fun ai => r - ai) a)
  | None => TypeError
  end.

(** [self.A += self.n * dA], element by element. *)
Definition add_scaled (n : Q) (a d : list Q) : list Q :=
  zip_with (fun ai di => ai + n * di) a d.

(** [DSR.update_parameters(self, raw_return)], for a scalar return:
    [dA = raw_return - self.A], [dB = raw_return**2 - self.B],
    [self.A += self.n * dA], [self.B += self.n * dB]. *)
Definition DSR_update_parameters (raw_return : Q) (self : DSR) : py DSR :=
  match scalar_minus raw_return (dsr_A self) with
  | TypeError => TypeError
  | Ok dA =>
      match scalar_minus (raw_return ^ 2) (dsr_B self) with
      | TypeError => TypeError
      | Ok dB =>
          Ok {| dsr_n := dsr_n self;
                dsr_A := option_map (fun a => add_scaled (dsr_n self) a dA)
                           (dsr_A self);
                dsr_B := option_map (fun b => add_scaled (dsr_n self) b dB)
                           (dsr_B self) |}
      end
  end.

(** What [DSR.__call__] installs before it computes anything:
    [self.A = np.zeros(nassets)], [self.B = np.zeros(nassets)]. *)
Definition DSR_zeros (nassets : nat) (self : DSR) : DSR :=
  {| dsr_n := dsr_n self; dsr_A := Some (repeat 0 nassets);
     dsr_B := Some (repeat 0 nassets) |}.

Record DDR : Type := mkDDR {
  ddr_n : Q;
  ddr_A : list Q;
  ddr_B : list Q
}.

(** [DDR.__init__(self, adaptation_rate, nassets)] *)
Definition DDR_init (adaptation_rate : Q) (nassets : nat) : DDR :=
  {| ddr_n := adaptation_rate; ddr_A := repeat 0 nassets;
     ddr_B := repeat 0 nassets |}.

(** [DDR.update_parameters(self, raw_return)], for a scalar return:
    [dA = raw_return - self.A], [dB = min(raw_return, 0)**2 - self.B],
    [self.A += self.n * dA], [self.B += self.n * dB]. *)
Definition DDR_update_parameters (raw_return : Q) (self : DDR) : DDR :=
  let dA := map (fun ai => raw_return - ai) (ddr_A self) in
  let dB := map (fun bi => Qmin raw_return 0 ^ 2 - bi) (ddr_B self) in
  {| ddr_n := ddr_n self;
     ddr_A := add_scaled (ddr_n self) (ddr_A self) dA;
     ddr_B := add_scaled (ddr_n self) (ddr_B self) dB |}.

(** The state of a [DDR]: one entry per asset in each array, the mean
    within the bounds [lo] and [hi] and the downside average not negative. *)
Definition DDR_ok (nassets : nat) (lo hi : Q) (self : DDR) : Prop :=
  length (ddr_A self) = nassets /\ length (ddr_B self) = nassets /\
  Forall (fun ai => lo <= ai /\ ai <= hi) (ddr_A self) /\
  Forall (fun bi => 0 <= bi) (ddr_B self).

(** The state of a [DSR] with arrays: one entry per asset in each, and each
    average of squares at least the square of the average. *)
Definition DSR_ok (nassets : nat) (self : DSR) : Prop :=
  exists a b,
    dsr_A self = Some a /\ dsr_B self = Some b /\
    length a = nassets /\ length b = nassets /\
    Forall2 (fun ai bi => ai ^ 2 <= bi) a b.

(** The parameters after the returns of a list, taken in order. *)
Definition DDR_updates (returns : list Q) (self : DDR) : DDR :=
  fold_left (fun s r => DDR_update_parameters r s) returns self.

Fixpoint DSR_updates (returns : list Q) (self : DSR) : py DSR :=
  match returns with
  | [] => Ok self
  | r :: returns' =>
      match DSR_update_parameters r self with
      | Ok self' => DSR_updates returns' self'
      | TypeError => TypeError
      end
  end.

End Ratios.
(** * Properties *)

(** ** The accounting prototype *)

Module NotebookFacts.
Import Notebook.
Local Open Scope Q_scope.

Lemma dict_get_set_same (d : dict) (k : string) (v : Q) :
  dict_get (dict_set d k v) k = Some v.
Proof.
  induction d as [|[k' v'] d IH]; simpl.
  - now rewrite String.eqb_refl.
  - destruct (String.eqb k k') eqn:E; simpl; rewrite E; auto.
Qed.

Lemma dict_get_set_other (d : dict) (k k' : string) (v : Q) :
  k <> k' -> dict_get (dict_set d k v) k' = dict_get d k'.
Proof.
  intros Hne. induction d as [|[k0 v0] d IH]; simpl.
  - destruct (String.eqb k' k) eqn:E; [|reflexivity].
    apply String.eqb_eq in E. congruence.
  - destruct (String.eqb k k0) eqn:E; simpl.
    + apply String.eqb_eq in E. subst k0.
      destruct (String.eqb k' k) eqn:E'; [|reflexivity].
      apply String.eqb_eq in E'. congruence.
    + now rewrite IH.
Qed.

(** Shifting the accumulator of the running sum shifts its result. *)
Lemma sum_values_shift (prices items : dict) (a a' delta e : Q) :
  sum_values prices items a = Return e -> a' == a + delta ->
  exists e', sum_values prices items a' = Return e' /\ e' == e + delta.
Proof.
  revert a a'. induction items as [|[k v] items IH]; simpl; intros a a' H Ha.
  - inversion H; subst. exists a'. split; [reflexivity|exact Ha].
  - destruct (dict_get prices k) as [p|]; [|discriminate].
    apply (IH _ (a' + p * v)) in H; [exact H|]. rewrite Ha. ring.
Qed.

(** Adding [u] units to a held asset adds [price * u] to the value of the
    assets. *)
Lemma sum_values_set (prices items : dict) (k : string) (price held u a e : Q) :
  dict_get prices k = Some price ->
  dict_get items k = Some held ->
  sum_values prices items a = Return e ->
  exists e', sum_values prices (dict_set items k (held + u)) a = Return e'
             /\ e' == e + price * u.
Proof.
  intros Hp. revert a. induction items as [|[k' v'] items IH]; simpl;
    intros a Hk Hs; [discriminate|].
  destruct (String.eqb k k') eqn:E.
  - apply String.eqb_eq in E. subst k'. inversion Hk; subst v'. simpl.
    rewrite Hp in *.
    apply (sum_values_shift _ _ _ (a + price * (held + u)) (price * u)) in Hs;
      [exact Hs|ring].
  - simpl. destruct (dict_get prices k') as [p|]; [|discriminate].
    now apply IH.
Qed.

(** What one margin order does to each book entry. *)
Lemma transaction_margin_run (prices : dict) (self : Portfolio)
    (asset_name : string) (units price held : Q) :
  dict_get prices asset_name = Some price ->
  dict_get (ledger self) asset_name = Some held ->
  transaction_margin prices asset_name units self =
    ({| ledger := dict_set (ledger self) asset_name (held + units);
        init_cash := init_cash self; type := type self;
        _cash := _cash self - price * units * initial_margin self;
        initial_margin := initial_margin self;
        _used_margin := _used_margin self + price * units * initial_margin self;
        _borrowed_cash :=
          _borrowed_cash self + price * units * (1 - initial_margin self);
        _available_margin := _available_margin self |}, Return tt).
Proof.
  intros Hp Hl. unfold transaction_margin, bind, subscript, ledger_add, get, put.
  rewrite Hp. cbn. unfold bind, subscript. rewrite Hl. reflexivity.
Qed.

End NotebookFacts.

(** ** The C++ portfolio *)

Module PortfolioFacts.
Import PortfolioH.
Local Open Scope Q_scope.

Lemma coeff_Return (v : Ledger) (i : Z) (x : Q) :
  coeff v i = Return x <-> (0 <= i)%Z /\ v !! Z.to_nat i = Some x.
Proof.
  unfold coeff. destruct (Z.ltb_spec i 0).
  - split; [discriminate|]. intros [? _]. lia.
  - destruct (v !! Z.to_nat i) eqn:E; split.
    + intros [= ->]. auto.
    + intros [_ [= ->]]. reflexivity.
    + discriminate.
    + intros [_ ?]. discriminate.
Qed.

Lemma coeff_zero (v : Ledger) :
  coeff v 0 = match v !! 0%nat with Some x => Return x | None => Undefined end.
Proof. reflexivity. Qed.

(** An index in range reads a coefficient. *)
Lemma coeff_in_range (v : Ledger) (i : Z) :
  (0 <= i < Z.of_nat (length v))%Z -> exists x, coeff v i = Return x.
Proof.
  intros Hi. destruct (lookup_lt_is_Some_2 v (Z.to_nat i)) as [x Hx]; [lia|].
  exists x. apply coeff_Return. split; [lia|exact Hx].
Qed.

Lemma vsum_insert (l : list Q) (i : nat) (x v : Q) :
  l !! i = Some x -> vsum (<[i := v]> l) == vsum l - x + v.
Proof.
  revert i. induction l as [|a l IH]; intros [|i] H; try discriminate.
  - inversion H; subst. cbn. ring.
  - cbn in H |- *. fold (vsum (<[i := v]> l)). fold (vsum l).
    rewrite (IH i H). ring.
Qed.

Lemma vdot_insert (l w : list Q) (i : nat) (x v pr : Q) :
  l !! i = Some x -> w !! i = Some pr ->
  vdot (<[i := v]> l) w == vdot l w - x * pr + v * pr.
Proof.
  revert w i. induction l as [|a l IH]; intros [|b w] [|i] Hl Hw;
    try discriminate.
  - inversion Hl; inversion Hw; subst. unfold vdot. cbn. ring.
  - cbn in Hl, Hw. unfold vdot in *. cbn.
    fold (vsum (zip_with Qmult (<[i := v]> l) w)).
    fold (vsum (zip_with Qmult l w)).
    rewrite (IH w i Hl Hw). ring.
Qed.

(** *** The three cases of a transaction *)

(** A trade against the position is a trade on a position that is not
    empty. *)
Lemma against_nonzero (L units : Q) : L * units < 0 -> ~ L == 0.
Proof.
  intros H HL. rewrite HL in H. ring_simplify in H. revert H.
  apply Qlt_irrefl.
Qed.

Lemma transact_open (i : nat) (L m B price units cost : Q) (p : Portfolio) :
  0 <= L * units ->
  transact i L m B price units cost p =
    openPosition i L B (weightedMeanEntry L m units price) price units cost p.
Proof. intros H. unfold transact. apply Qle_bool_iff in H. now rewrite H. Qed.

Lemma transact_reduce (i : nat) (L m B price units cost : Q) (p : Portfolio) :
  L * units < 0 -> Qabs units <= Qabs L ->
  transact i L m B price units cost p =
    reducePosition i L m B price units cost p.
Proof.
  intros H H'. unfold transact.
  destruct (Qle_bool 0 (L * units)) eqn:E.
  - apply Qle_bool_iff in E. exfalso. apply (Qlt_irrefl 0).
    eapply Qle_lt_trans; eassumption.
  - apply Qle_bool_iff in H'. now rewrite H'.
Qed.

Lemma transact_flip (i : nat) (L m B price units cost : Q) (p : Portfolio) :
  L * units < 0 -> Qabs L < Qabs units ->
  transact i L m B price units cost p =
    openPosition i (L + - L) (B - closedFraction L (- L) * B) price price
      (units + L) 0 (reducePosition i L m B price (- L) cost p).
Proof.
  intros H H'. unfold transact.
  destruct (Qle_bool 0 (L * units)) eqn:E.
  - apply Qle_bool_iff in E. exfalso. apply (Qlt_irrefl 0).
    eapply Qle_lt_trans; eassumption.
  - destruct (Qle_bool (Qabs units) (Qabs L)) eqn:E'; [|reflexivity].
    apply Qle_bool_iff in E'. exfalso. apply (Qlt_irrefl (Qabs L)).
    eapply Qlt_le_trans; eassumption.
Qed.

(** The three cases cover every trade. *)
Lemma transact_cases (L units : Q) :
  0 <= L * units \/
  (L * units < 0 /\ Qabs units <= Qabs L) \/
  (L * units < 0 /\ Qabs L < Qabs units).
Proof.
  destruct (Qlt_le_dec (L * units) 0) as [H|H]; [|now left].
  right. destruct (Qlt_le_dec (Qabs L) (Qabs units)); [right|left]; auto.
Qed.

(** The closed fraction of the position is the units closed, and a full
    close closes all of it. *)
Lemma closedFraction_mult (L units : Q) :
  ~ L == 0 -> closedFraction L units * L == - units.
Proof. intros HL. unfold closedFraction. field. exact HL. Qed.

Lemma closedFraction_full (L units : Q) :
  ~ L == 0 -> units == - L -> closedFraction L units == 1.
Proof. intros HL Hu. unfold closedFraction. rewrite Hu. field. exact HL. Qed.

(** The cash the reduce rule releases, without the fraction of the entry
    notional. *)
Lemma fundedAtEntry_released (L m B units : Q) :
  ~ L == 0 ->
  closedFraction L units * fundedAtEntry L m B
    == - units * m - closedFraction L units * B.
Proof.
  intros HL. rewrite <- (closedFraction_mult L units HL).
  unfold fundedAtEntry. ring.
Qed.

(** The update block keeps equity when it is applied at the current price
    without cost. *)
Lemma openPosition_equity (i : nat) (L B mean price units : Q) (p : Portfolio) :
  ledger_ p !! i = Some L -> borrowedMargin_ p !! i = Some B ->
  currentPrices_ p !! i = Some price ->
  equity (openPosition i L B mean price units 0 p) == equity p.
Proof.
  intros HL HB Hp. unfold equity, openPosition.
  cbn [cash_ ledger_ currentPrices_ borrowedMargin_].
  rewrite (vdot_insert _ _ _ L _ price HL Hp).
  rewrite (vsum_insert _ _ B _ HB). ring.
Qed.

(** So does the reduce rule, whatever the mean entry price. *)
Lemma reducePosition_equity (i : nat) (L m B price units : Q) (p : Portfolio) :
  ~ L == 0 ->
  ledger_ p !! i = Some L -> borrowedMargin_ p !! i = Some B ->
  currentPrices_ p !! i = Some price ->
  equity (reducePosition i L m B price units 0 p) == equity p.
Proof.
  intros HL0 HL HB Hp. unfold equity, reducePosition.
  cbn [cash_ ledger_ currentPrices_ borrowedMargin_].
  rewrite (vdot_insert _ _ _ L _ price HL Hp).
  rewrite (vsum_insert _ _ B _ HB).
  rewrite (fundedAtEntry_released _ _ _ _ HL0). ring.
Qed.

(** The transaction operation on an asset of the portfolio returns, and its
    result is the transaction of section 4.2 on the entries it reads. *)
Lemma handleTransaction_int_run (p : Portfolio) (assetIdx : Z)
    (price units cost : Q) :
  sized p -> (0 <= assetIdx < Z.of_nat (nAssets p))%Z ->
  exists L m B pr,
    ledger_ p !! Z.to_nat assetIdx = Some L /\
    meanEntryPrices_ p !! Z.to_nat assetIdx = Some m /\
    borrowedMargin_ p !! Z.to_nat assetIdx = Some B /\
    currentPrices_ p !! Z.to_nat assetIdx = Some pr /\
    handleTransaction_int assetIdx price units cost p =
      (transact (Z.to_nat assetIdx) L m B price units cost p, Return tt).
Proof.
  intros (Hl & Hm & Hb & Hc) Hi.
  destruct (coeff_in_range (ledger_ p) assetIdx) as [L HL]; [lia|].
  destruct (coeff_in_range (meanEntryPrices_ p) assetIdx) as [m Hm']; [lia|].
  destruct (coeff_in_range (borrowedMargin_ p) assetIdx) as [B HB]; [lia|].
  destruct (coeff_in_range (currentPrices_ p) assetIdx) as [pr Hpr]; [lia|].
  exists L, m, B, pr. unfold handleTransaction_int. rewrite HL, Hm', HB.
  apply coeff_Return in HL, Hm', HB, Hpr. tauto.
Qed.

(** A newly made portfolio has one entry per asset in each vector, and a
    transaction keeps it so. *)
Lemma Portfolio_new_sized (id : string) (assets : Assets) (initCash : Q) :
  sized (Portfolio_new id assets initCash).
Proof.
  unfold sized, nAssets, Portfolio_new, zeros. cbn.
  rewrite !repeat_length. tauto.
Qed.

Lemma openPosition_sized (i : nat) (L B mean price units cost : Q)
    (p : Portfolio) :
  sized p -> sized (openPosition i L B mean price units cost p).
Proof. unfold sized, nAssets. cbn. rewrite !length_insert. tauto. Qed.

Lemma reducePosition_sized (i : nat) (L m B price units cost : Q)
    (p : Portfolio) :
  sized p -> sized (reducePosition i L m B price units cost p).
Proof. unfold sized, nAssets. cbn. rewrite !length_insert. tauto. Qed.

Lemma transact_sized (i : nat) (L m B price units cost : Q) (p : Portfolio) :
  sized p -> sized (transact i L m B price units cost p).
Proof.
  intros H. unfold transact.
  destruct (Qle_bool 0 (L * units)); [now apply openPosition_sized|].
  destruct (Qle_bool (Qabs units) (Qabs L)); [now apply reducePosition_sized|].
  now apply openPosition_sized, reducePosition_sized.
Qed.

(** The transaction of section 4.2 keeps equity when it is made at the
    current price without cost, in each of its three cases. *)
Lemma transact_equity (i : nat) (L m B price units : Q) (p : Portfolio) :
  ledger_ p !! i = Some L -> borrowedMargin_ p !! i = Some B ->
  currentPrices_ p !! i = Some price ->
  equity (transact i L m B price units 0 p) == equity p.
Proof.
  intros HL HB Hp.
  destruct (transact_cases L units) as [Ho|[[Ha Hr]|[Ha Hf]]].
  - rewrite (transact_open _ _ _ _ _ _ _ _ Ho).
    now apply openPosition_equity.
  - rewrite (transact_reduce _ _ _ _ _ _ _ _ Ha Hr).
    apply reducePosition_equity; auto. exact (against_nonzero _ _ Ha).
  - rewrite (transact_flip _ _ _ _ _ _ _ _ Ha Hf).
    rewrite openPosition_equity.
    + apply reducePosition_equity; auto. exact (against_nonzero _ _ Ha).
    + cbn. apply list_lookup_insert_eq. now apply lookup_lt_Some in HL.
    + cbn. apply list_lookup_insert_eq. now apply lookup_lt_Some in HB.
    + exact Hp.
Qed.

(** Every transaction adds its units to the ledger entry of the asset. *)
Lemma transact_ledger (i : nat) (L m B price units cost : Q) (p : Portfolio) :
  ledger_ p !! i = Some L ->
  exists L', ledger_ (transact i L m B price units cost p) !! i = Some L' /\
             L' == L + units.
Proof.
  intros HL.
  assert (Hlen : (i < length (ledger_ p))%nat) by now apply lookup_lt_Some in HL.
  destruct (transact_cases L units) as [Ho|[[Ha Hr]|[Ha Hf]]].
  - rewrite (transact_open _ _ _ _ _ _ _ _ Ho). exists (L + units).
    split; [|reflexivity]. now apply list_lookup_insert_eq.
  - rewrite (transact_reduce _ _ _ _ _ _ _ _ Ha Hr). exists (L + units).
    split; [|reflexivity]. now apply list_lookup_insert_eq.
  - rewrite (transact_flip _ _ _ _ _ _ _ _ Ha Hf).
    exists (L + - L + (units + L)). split; [|ring]. cbn.
    apply list_lookup_insert_eq. now rewrite length_insert.
Qed.

(** C1: a transaction on an asset of the portfolio, at the portfolio's
    current price for that asset and with no transaction cost, returns, adds
    its units to the position and leaves equity unchanged, whatever the sign
    and size of the trade and of the position held: whether it opens a
    position, increases it, closes it in part or in full, or flips its
    sign. *)
Theorem handleTransaction_conserves_equity (p : Portfolio) (assetIdx : Z)
    (units price : Q) :
  sized p ->
  (0 <= assetIdx < Z.of_nat (nAssets p))%Z ->
  coeff (currentPrices_ p) assetIdx = Return price ->
  exists p' L L',
    handleTransaction_int assetIdx price units 0 p = (p', Return tt) /\
    coeff (ledger_ p) assetIdx = Return L /\
    coeff (ledger_ p') assetIdx = Return L' /\ L' == L + units /\
    equity p' == equity p.
Proof.
  intros Hs Hi Hprice.
  destruct (handleTransaction_int_run p assetIdx price units 0 Hs Hi)
    as (L & m & B & pr & HL & Hm & HB & Hpr & Hrun).
  apply coeff_Return in Hprice. destruct Hprice as [Hnn Hprice].
  destruct (transact_ledger (Z.to_nat assetIdx) L m B price units 0 p HL)
    as (L' & HL' & Heq).
  eexists. exists L, L'. split; [exact Hrun|].
  split; [apply coeff_Return; auto|]. split; [apply coeff_Return; auto|].
  split; [exact Heq|]. now apply transact_equity.
Qed.

(** C1 on the leveraged portfolio that holds 1000 units of X bought at 10.0,
    with the price at 11.0: selling 1500 units at 11.0 closes the position
    and opens a short one of 500 units. *)
Lemma handleTransaction_conserves_equity_leveraged :
  exists p' L L',
    handleTransaction_int 0 11 (- 1500) 0 moved_portfolio = (p', Return tt) /\
    coeff (ledger_ moved_portfolio) 0 = Return L /\
    coeff (ledger_ p') 0 = Return L' /\ L' == L + - 1500 /\
    equity p' == equity moved_portfolio.
Proof.
  apply (handleTransaction_conserves_equity moved_portfolio 0 (- 1500) 11).
  - unfold sized. repeat split; reflexivity.
  - vm_compute. split; [discriminate|reflexivity].
  - reflexivity.
Defined.

Lemma square_pos (x : Q) : ~ x == 0 -> 0 < x * x.
Proof.
  intros H. destruct (Q_dec x 0) as [[Hlt|Hgt]|Heq]; [| |contradiction].
  - assert (E : x * x == (- x) * (- x)) by ring. rewrite E.
    apply Qmult_lt_0_compat; lra.
  - now apply Qmult_lt_0_compat.
Qed.

(** A trade that leaves an empty position without going against one is a
    trade of nothing. *)
Lemma against_zero (L units : Q) :
  0 <= L * units -> L + units == 0 -> units == 0.
Proof.
  intros H H0. destruct (Qeq_dec units 0) as [E|E]; [exact E|exfalso].
  assert (HL : L == - units) by lra.
  assert (E' : L * units == - (units * units)) by (rewrite HL; ring).
  rewrite E' in H. pose proof (square_pos units E). lra.
Qed.

Lemma lookup_zeros (n i : nat) (x : Q) : zeros n !! i = Some x -> x = 0.
Proof.
  unfold zeros. revert i. induction n as [|n IH]; intros [|i] H;
    try discriminate.
  - now inversion H.
  - exact (IH i H).
Qed.

(** *** Nothing is borrowed against an empty position *)

Lemma Portfolio_new_flat (id : string) (assets : Assets) (initCash : Q) :
  flatOwesNothing (Portfolio_new id assets initCash).
Proof.
  intros i L B _ HB _. cbn in HB. apply lookup_zeros in HB. now subst.
Qed.

(** Neither a new required-margin fraction nor new prices touch the ledger
    or the borrowed margin. *)
Lemma setRequiredMargin_flat (r : Q) (p : Portfolio) :
  flatOwesNothing p -> flatOwesNothing (setRequiredMargin r p).
Proof. intros H i L B. exact (H i L B). Qed.

Lemma refreshPrices_flat (prices : list Q) (p : Portfolio) :
  flatOwesNothing p -> flatOwesNothing (refreshPrices prices p).
Proof. intros H i L B. exact (H i L B). Qed.

Lemma flat_update (p p' : Portfolio) (i : nat) (L' B' : Q) :
  flatOwesNothing p ->
  ledger_ p' = <[i := L']> (ledger_ p) ->
  borrowedMargin_ p' = <[i := B']> (borrowedMargin_ p) ->
  (L' == 0 -> B' == 0) ->
  flatOwesNothing p'.
Proof.
  intros H Hl Hb HB' j L B. rewrite Hl, Hb.
  destruct (decide (i = j)) as [->|Hne].
  - intros HL HB.
    apply list_lookup_insert_Some in HL, HB.
    destruct HL as [(_ & <- & _)|(? & _)]; [|congruence].
    destruct HB as [(_ & <- & _)|(? & _)]; [|congruence].
    exact HB'.
  - rewrite !list_lookup_insert_ne by exact Hne. apply H.
Qed.

(** A transaction keeps it so, whatever the required-margin fraction has
    been: a position that a trade empties has been closed in full, and its
    borrowed margin with it. *)
Lemma transact_flat (i : nat) (L m B price units cost : Q) (p : Portfolio) :
  ledger_ p !! i = Some L -> borrowedMargin_ p !! i = Some B ->
  flatOwesNothing p ->
  flatOwesNothing (transact i L m B price units cost p).
Proof.
  intros HL HB H. pose proof (H i L B HL HB) as HB0.
  destruct (transact_cases L units) as [Ho|[[Ha Hr]|[Ha Hf]]].
  - rewrite (transact_open _ _ _ _ _ _ _ _ Ho).
    apply (flat_update p _ i (L + units)
             (B + units * price * (1 - requiredMargin_ p)) H);
      [reflexivity..|].
    intros E. pose proof (against_zero _ _ Ho E) as Hu.
    assert (HL0 : L == 0) by lra. rewrite (HB0 HL0), Hu. ring.
  - rewrite (transact_reduce _ _ _ _ _ _ _ _ Ha Hr).
    apply (flat_update p _ i (L + units) (B - closedFraction L units * B) H);
      [reflexivity..|].
    intros E. assert (Hu : units == - L) by lra.
    rewrite (closedFraction_full L units (against_nonzero _ _ Ha) Hu). ring.
  - rewrite (transact_flip _ _ _ _ _ _ _ _ Ha Hf).
    apply (flat_update p _ i (L + - L + (units + L))
             (B - closedFraction L (- L) * B
              + (units + L) * price * (1 - requiredMargin_ p)) H);
      [cbn; rewrite ?list_insert_insert_eq; reflexivity..|].
    intros E. exfalso. assert (Hu : units == - L) by lra.
    rewrite Hu, Qabs_opp in Hf. revert Hf. apply Qlt_irrefl.
Qed.

(** So does the transaction operation, on any asset index, and so do
    [close] and the indexing by code, which only writes the index map. *)
Lemma handleTransaction_int_flat (p : Portfolio) (assetIdx : Z)
    (price units cost : Q) :
  flatOwesNothing p ->
  flatOwesNothing (fst (handleTransaction_int assetIdx price units cost p)).
Proof.
  intros H. unfold handleTransaction_int.
  destruct (coeff (ledger_ p) assetIdx) as [L| |] eqn:HL; try exact H.
  destruct (coeff (meanEntryPrices_ p) assetIdx) as [m| |]; try exact H.
  destruct (coeff (borrowedMargin_ p) assetIdx) as [B| |] eqn:HB; try exact H.
  apply coeff_Return in HL, HB. cbn [fst].
  apply transact_flat; tauto.
Qed.

Lemma close_int_flat (p : Portfolio) (assetIdx : Z) (price cost : Q) :
  flatOwesNothing p ->
  flatOwesNothing (fst (close_int assetIdx price cost p)).
Proof.
  intros H. unfold close_int.
  destruct (coeff (ledger_ p) assetIdx); try exact H.
  now apply handleTransaction_int_flat.
Qed.

Lemma op_index_code_flat (p : Portfolio) (c : string) :
  flatOwesNothing p -> flatOwesNothing (fst (op_index_code c p)).
Proof.
  intros H. unfold op_index_code. destruct (assetIdx_ p !! c); exact H.
Qed.

(** The mean entry price of a position opened from nothing is the price of
    the trade. *)
Lemma weightedMeanEntry_flat (L m U P : Q) :
  L == 0 -> ~ L + U == 0 -> weightedMeanEntry L m U P == P.
Proof.
  intros HL Hne. unfold weightedMeanEntry.
  destruct (Qeq_bool (L + U) 0) eqn:E.
  - apply Qeq_bool_iff in E. contradiction.
  - rewrite HL in Hne |- *. field. intros HU. apply Hne. rewrite HU. ring.
Qed.

(** The closing leg of a round trip: a trade of [X == - L1] units at [P] on
    a position [L1] entered at [P], with the part [1 - r] of its notional
    borrowed, gives the cash back what opening it took. *)
Lemma transact_closing_leg (i : nat) (L1 m1 B1 P X : Q) (q : Portfolio) :
  X == - L1 -> (~ L1 == 0 -> m1 == P) ->
  B1 == L1 * P * (1 - requiredMargin_ q) ->
  cash_ (transact i L1 m1 B1 P X 0 q)
    == cash_ q + L1 * P * requiredMargin_ q /\
  ledger_ (transact i L1 m1 B1 P X 0 q) = <[i := L1 + X]> (ledger_ q).
Proof.
  intros HX Hm HB. destruct (Qeq_dec L1 0) as [H0|Hne].
  - rewrite transact_open.
    + split; [|reflexivity]. cbn. rewrite HX, H0. ring.
    + rewrite H0. ring_simplify. apply Qle_refl.
  - rewrite transact_reduce.
    + split; [|reflexivity]. cbn.
      rewrite (fundedAtEntry_released _ _ _ _ Hne).
      rewrite (closedFraction_full _ _ Hne HX), (Hm Hne), HB, HX. ring.
    + assert (E : L1 * X == - (L1 * L1)) by (rewrite HX; ring). rewrite E.
      pose proof (square_pos L1 Hne). lra.
    + rewrite HX, Qabs_opp. apply Qle_refl.
Qed.

(** The two ways of closing a position just opened from nothing, on the
    portfolio after the opening trade. *)
Lemma handleTransaction_int_closing (p1 : Portfolio) (assetIdx : Z)
    (L1 m1 B1 P X : Q) :
  sized p1 -> (0 <= assetIdx < Z.of_nat (nAssets p1))%Z ->
  ledger_ p1 !! Z.to_nat assetIdx = Some L1 ->
  meanEntryPrices_ p1 !! Z.to_nat assetIdx = Some m1 ->
  borrowedMargin_ p1 !! Z.to_nat assetIdx = Some B1 ->
  X == - L1 -> (~ L1 == 0 -> m1 == P) ->
  B1 == L1 * P * (1 - requiredMargin_ p1) ->
  exists p2,
    handleTransaction_int assetIdx P X 0 p1 = (p2, Return tt) /\
    coeff (ledger_ p2) assetIdx = Return (L1 + X) /\
    cash_ p2 == cash_ p1 + L1 * P * requiredMargin_ p1.
Proof.
  intros Hs Hi HL1 Hm1 HB1 HX Hm HB.
  destruct (handleTransaction_int_run p1 assetIdx P X 0 Hs Hi)
    as (L & m & B & pr & HL & Hm' & HB' & _ & Hrun).
  rewrite HL1 in HL. inversion HL; subst L.
  rewrite Hm1 in Hm'. inversion Hm'; subst m.
  rewrite HB1 in HB'. inversion HB'; subst B.
  destruct (transact_closing_leg (Z.to_nat assetIdx) L1 m1 B1 P X p1 HX Hm HB)
    as [Hcash Hledger].
  eexists. split; [exact Hrun|]. split; [|exact Hcash].
  apply coeff_Return. split; [lia|]. rewrite Hledger.
  apply list_lookup_insert_eq. now apply lookup_lt_Some in HL1.
Qed.

(** C4: from a flat position in an asset of a portfolio in which nothing is
    borrowed against an empty position, opening [U] units at price [P], which
    puts them in the ledger, and then closing at the same price, by [close]
    or by the offsetting transaction, both without transaction cost, brings
    the ledger entry of the asset back to 0 and the cash back to its value
    before the trade. *)
Theorem open_then_close_round_trip (p : Portfolio) (assetIdx : Z)
    (U P L : Q) :
  sized p -> flatOwesNothing p ->
  (0 <= assetIdx < Z.of_nat (nAssets p))%Z ->
  coeff (ledger_ p) assetIdx = Return L ->
  L == 0 ->
  exists p1,
    handleTransaction_int assetIdx P U 0 p = (p1, Return tt) /\
    coeff (ledger_ p1) assetIdx = Return (L + U) /\
    (exists p2 v,
       close_int assetIdx P 0 p1 = (p2, Return tt) /\
       coeff (ledger_ p2) assetIdx = Return v /\ v == 0 /\
       cash_ p2 == cash_ p) /\
    (exists p2 v,
       handleTransaction_int assetIdx P (- U) 0 p1 = (p2, Return tt) /\
       coeff (ledger_ p2) assetIdx = Return v /\ v == 0 /\
       cash_ p2 == cash_ p).
Proof.
  intros Hs Hfl Hi HL Hflat.
  destruct (handleTransaction_int_run p assetIdx P U 0 Hs Hi)
    as (L0 & m & B & pr & HL0 & Hm & HB & _ & Hrun).
  apply coeff_Return in HL. destruct HL as [Hnn HL].
  rewrite HL in HL0. inversion HL0; subst L0. clear HL0.
  pose proof (Hfl _ L B HL HB Hflat) as Hfree.
  assert (Hopen : 0 <= L * U) by (rewrite Hflat; ring_simplify; apply Qle_refl).
  rewrite (transact_open _ _ _ _ _ _ _ _ Hopen) in Hrun.
  set (m1 := weightedMeanEntry L m U P) in *.
  set (p1 := openPosition (Z.to_nat assetIdx) L B m1 P U 0 p) in *.
  assert (Hs1 : sized p1) by (apply openPosition_sized; exact Hs).
  assert (Hi1 : (0 <= assetIdx < Z.of_nat (nAssets p1))%Z) by exact Hi.
  assert (HL1 : ledger_ p1 !! Z.to_nat assetIdx = Some (L + U)).
  { subst p1. cbn. apply list_lookup_insert_eq. now apply lookup_lt_Some in HL. }
  assert (Hm1 : meanEntryPrices_ p1 !! Z.to_nat assetIdx = Some m1).
  { subst p1. cbn. apply list_lookup_insert_eq. now apply lookup_lt_Some in Hm. }
  assert (HB1 : borrowedMargin_ p1 !! Z.to_nat assetIdx
                = Some (B + U * P * (1 - requiredMargin_ p))).
  { subst p1. cbn. apply list_lookup_insert_eq. now apply lookup_lt_Some in HB. }
  assert (Hentry : ~ L + U == 0 -> m1 == P)
    by (intros Hne; now apply weightedMeanEntry_flat).
  assert (Hborrowed : B + U * P * (1 - requiredMargin_ p)
                      == (L + U) * P * (1 - requiredMargin_ p1)).
  { subst p1. cbn. rewrite Hflat, Hfree. ring. }
  assert (Hcash1 : cash_ p1 + (L + U) * P * requiredMargin_ p1 == cash_ p).
  { subst p1. cbn. rewrite Hflat. ring. }
  assert (Hc : coeff (ledger_ p1) assetIdx = Return (L + U))
    by (apply coeff_Return; auto).
  exists p1. split; [exact Hrun|]. split; [exact Hc|]. split.
  - destruct (handleTransaction_int_closing p1 assetIdx (L + U) m1 _ P
                (- (L + U)) Hs1 Hi1 HL1 Hm1 HB1) as (p2 & H2 & Hl2 & Hc2);
      [reflexivity|exact Hentry|exact Hborrowed|].
    exists p2, (L + U + - (L + U)). unfold close_int.
    rewrite Hc. split; [exact H2|]. split; [exact Hl2|]. split; [ring|].
    rewrite Hc2. exact Hcash1.
  - destruct (handleTransaction_int_closing p1 assetIdx (L + U) m1 _ P
                (- U) Hs1 Hi1 HL1 Hm1 HB1) as (p2 & H2 & Hl2 & Hc2);
      [rewrite Hflat; ring|exact Hentry|exact Hborrowed|].
    exists p2, (L + U + - U). split; [exact H2|]. split; [exact Hl2|].
    split; [rewrite Hflat; ring|]. rewrite Hc2. exact Hcash1.
Qed.

(** C4 on the leveraged portfolio: 1000 units of X opened and closed at
    10.0. *)
Lemma open_then_close_round_trip_leveraged :
  exists p1,
    handleTransaction_int 0 10 1000 0 leveraged_portfolio = (p1, Return tt) /\
    coeff (ledger_ p1) 0 = Return (0 + 1000) /\
    (exists p2 v,
       close_int 0 10 0 p1 = (p2, Return tt) /\
       coeff (ledger_ p2) 0 = Return v /\ v == 0 /\
       cash_ p2 == cash_ leveraged_portfolio) /\
    (exists p2 v,
       handleTransaction_int 0 10 (- 1000) 0 p1 = (p2, Return tt) /\
       coeff (ledger_ p2) 0 = Return v /\ v == 0 /\
       cash_ p2 == cash_ leveraged_portfolio).
Proof.
  apply (open_then_close_round_trip leveraged_portfolio 0 1000 10 0).
  - unfold sized. repeat split; reflexivity.
  - apply setRequiredMargin_flat, refreshPrices_flat, Portfolio_new_flat.
  - vm_compute. split; [discriminate|reflexivity].
  - reflexivity.
  - reflexivity.
Defined.

(** *** The scenarios of section 8 on the modelled transaction *)

(** The cash account: 1000 units bought at 10.0, the price moves to 11.0,
    the position is sold at 11.0. *)
Lemma cash_account_scenario :
  let p1 := fst (handleTransaction_int 0 10 1000 0 cash_portfolio) in
  let p2 := refreshPrices [11] p1 in
  let p3 := fst (handleTransaction_int 0 11 (- 1000) 0 p2) in
  (cash_ p1 == 990000 /\ ledger_ p1 = [0 + 1000] /\ equity p1 == 1000000) /\
  equity p2 == 1001000 /\
  (cash_ p3 == 1001000 /\ coeff (ledger_ p3) 0 = Return (0 + 1000 + - 1000) /\
   equity p3 == 1001000 /\ usedMargin_ p3 == 0).
Proof. vm_compute. repeat split; reflexivity. Qed.

(** The leveraged account: the position bought at 10.0 is closed at 11.0;
    the margin is released, nothing stays borrowed and the profit is in the
    cash. *)
Lemma leveraged_close_scenario :
  let p' := fst (close_int 0 11 0 moved_portfolio) in
  cash_ bought_portfolio == 998000 /\ usedMargin_ bought_portfolio == 2000 /\
  cash_ p' == 1001000 /\ usedMargin_ p' == 0 /\
  Forall (fun b => b == 0) (borrowedMargin_ p') /\
  Forall (fun l => l == 0) (ledger_ p') /\
  equity p' == 1001000.
Proof.
  cbv zeta. repeat split; try (vm_compute; reflexivity);
    repeat constructor; vm_compute; reflexivity.
Qed.

(** *** The borrowed margin follows the position *)

Lemma Portfolio_new_consistent (id : string) (assets : Assets) (initCash : Q) :
  marginConsistent (Portfolio_new id assets initCash).
Proof.
  intros i L m B HL _ HB. cbn in HL, HB.
  apply lookup_zeros in HL, HB. subst. cbn. ring.
Qed.

Lemma refreshPrices_consistent (prices : list Q) (p : Portfolio) :
  marginConsistent p -> marginConsistent (refreshPrices prices p).
Proof. intros H i L m B. exact (H i L m B). Qed.

(** An update of the three entries of asset [i] that keeps the relation at
    [i] keeps it everywhere. *)
Lemma consistent_update (p p' : Portfolio) (i : nat) (L' m' B' : Q) :
  marginConsistent p ->
  requiredMargin_ p' = requiredMargin_ p ->
  ledger_ p' = <[i := L']> (ledger_ p) ->
  meanEntryPrices_ p' = <[i := m']> (meanEntryPrices_ p) ->
  borrowedMargin_ p' = <[i := B']> (borrowedMargin_ p) ->
  B' == L' * m' * (1 - requiredMargin_ p) ->
  marginConsistent p'.
Proof.
  intros H Hr Hl Hm Hb HB' j L m B. rewrite Hr, Hl, Hm, Hb.
  destruct (decide (i = j)) as [->|Hne].
  - intros HL HM HB.
    apply list_lookup_insert_Some in HL, HM, HB.
    destruct HL as [(_ & <- & _)|(? & _)]; [|congruence].
    destruct HM as [(_ & <- & _)|(? & _)]; [|congruence].
    destruct HB as [(_ & <- & _)|(? & _)]; [|congruence].
    exact HB'.
  - rewrite !list_lookup_insert_ne by exact Hne. apply H.
Qed.

(** A transaction keeps the borrowed margin of every asset equal to the
    borrowed part of the entry notional of its position. *)
Lemma transact_consistent (i : nat) (L m B price units cost : Q)
    (p : Portfolio) :
  ledger_ p !! i = Some L -> meanEntryPrices_ p !! i = Some m ->
  borrowedMargin_ p !! i = Some B ->
  marginConsistent p ->
  marginConsistent (transact i L m B price units cost p).
Proof.
  intros HL Hm HB H. pose proof (H i L m B HL Hm HB) as HBeq.
  destruct (transact_cases L units) as [Ho|[[Ha Hr]|[Ha Hf]]].
  - rewrite (transact_open _ _ _ _ _ _ _ _ Ho).
    apply (consistent_update p _ i (L + units)
             (weightedMeanEntry L m units price)
             (B + units * price * (1 - requiredMargin_ p)) H);
      [reflexivity..|].
    unfold weightedMeanEntry. destruct (Qeq_bool (L + units) 0) eqn:E.
    + apply Qeq_bool_iff in E. pose proof (against_zero _ _ Ho E) as Hu.
      assert (HL0 : L == 0) by lra. rewrite HBeq, Hu, HL0. ring.
    + apply Qeq_bool_neq in E. rewrite HBeq. field. exact E.
  - rewrite (transact_reduce _ _ _ _ _ _ _ _ Ha Hr).
    apply (consistent_update p _ i (L + units) m
             (B - closedFraction L units * B) H);
      [reflexivity|reflexivity|cbn; symmetry; now apply list_insert_id
      |reflexivity|].
    rewrite HBeq at 2.
    assert (E : closedFraction L units * (L * m * (1 - requiredMargin_ p))
                == - units * (m * (1 - requiredMargin_ p))).
    { rewrite <- (closedFraction_mult L units (against_nonzero _ _ Ha)). ring. }
    rewrite E, HBeq. ring.
  - rewrite (transact_flip _ _ _ _ _ _ _ _ Ha Hf).
    apply (consistent_update p _ i (L + - L + (units + L)) price
             (B - closedFraction L (- L) * B
              + (units + L) * price * (1 - requiredMargin_ p)) H);
      [reflexivity|cbn; rewrite ?list_insert_insert_eq; reflexivity..|].
    rewrite (closedFraction_full L (- L) (against_nonzero _ _ Ha));
      [ring|reflexivity].
Qed.

(** On such a portfolio the cash-funded notional of a position is the part
    [r] of its entry notional, so that the used margin the reduce rule
    releases is the closed fraction of [|L * m * r|], "recomputed from ledger
    and mean-entry-price state". *)
Lemma fundedAtEntry_consistent (p : Portfolio) (i : nat) (L m B : Q) :
  marginConsistent p ->
  ledger_ p !! i = Some L -> meanEntryPrices_ p !! i = Some m ->
  borrowedMargin_ p !! i = Some B ->
  fundedAtEntry L m B == L * m * requiredMargin_ p.
Proof.
  intros H HL Hm HB. unfold fundedAtEntry. rewrite (H i L m B HL Hm HB). ring.
Qed.



(** The checked lookup of [close(string, ...)]: a code that is not a key of
    the index map throws, and the portfolio is as before. *)
Lemma close_string_unknown_key (p : Portfolio) (assetCode : string)
    (price cost : Q) :
  assetIdx_ p !! assetCode = None ->
  close_string assetCode price cost p = (p, Throw out_of_range).
Proof. intros H. unfold close_string. now rewrite H. Qed.

(** A code outside the asset list is not a key of the index map of a newly
    made portfolio. *)
Lemma registerAssets_unknown (assets : Assets) (c : string) :
  c ∉ map code assets -> registerAssets assets !! c = None.
Proof.
  intros H. unfold registerAssets. apply not_elem_of_list_to_map_1.
  rewrite fst_zip; [exact H|]. rewrite length_map, length_seq. lia.
Qed.

(** C9 (as amended): for a code that is not yet a key of the index map (as
    is every code outside the asset list of a newly made portfolio, until it
    is indexed), [operator[]] throws nothing: it adds the code to the index
    map with index 0, which changes the portfolio, and reads the ledger at
    index 0; [close] with the same code on the same portfolio throws instead
    and changes nothing. *)
Theorem op_index_code_unknown (p : Portfolio) (c : string) :
  assetIdx_ p !! c = None ->
  op_index_code c p =
    (set_assetIdx (<[c := 0%nat]> (assetIdx_ p)) p, coeff (ledger_ p) 0%Z) /\
  (forall e, snd (op_index_code c p) <> Throw e) /\
  (forall v, ledger_ p !! 0%nat = Some v ->
     snd (op_index_code c p) = Return v) /\
  assetIdx_ (fst (op_index_code c p)) !! c = Some 0%nat /\
  fst (op_index_code c p) <> p /\
  (forall price cost,
     close_string c price cost p = (p, Throw out_of_range)).
Proof.
  intros H. unfold op_index_code. rewrite H. cbn [fst snd].
  split; [reflexivity|]. split.
  - intros e. rewrite coeff_zero. destruct (ledger_ p !! 0%nat); discriminate.
  - split.
    + intros v Hv. rewrite coeff_zero. now rewrite Hv.
    + split; [cbn; apply lookup_insert_eq|]. split.
      * intros Heq. apply (f_equal (fun q => assetIdx_ q !! c)) in Heq.
        cbn in Heq. rewrite lookup_insert_eq, H in Heq. discriminate.
      * intros price cost. now apply close_string_unknown_key.
Qed.

(** C9 (as amended) on the leveraged portfolio and the code "bogus". *)
Lemma op_index_code_unknown_leveraged :
  ("bogus" ∉ map code (assets_ leveraged_portfolio)) /\
  snd (op_index_code "bogus" leveraged_portfolio) = Return 0 /\
  assetIdx_ (fst (op_index_code "bogus" leveraged_portfolio)) !! "bogus"
    = Some 0%nat.
Proof.
  destruct (op_index_code_unknown leveraged_portfolio "bogus" eq_refl)
    as (_ & _ & Hread & Hins & _).
  split; [|split; [apply Hread; reflexivity|exact Hins]].
  cbn. intros Hin. apply list_elem_of_In in Hin. destruct Hin as [Heq|[]].
  discriminate.
Defined.

(** C9 as stated fails once the code has been indexed: on the portfolio on
    which [portfolio["bogus"]] has been evaluated, "bogus" is still outside
    the asset set, but indexing with it again inserts nothing and leaves the
    portfolio as it is, and [close("bogus", ...)] passes its checked lookup
    and is [close(0, ...)]. *)
Lemma op_index_code_indexed_before :
  ("bogus" ∉ map code (assets_ indexed_portfolio)) /\
  assetIdx_ indexed_portfolio !! "bogus" = Some 0%nat /\
  op_index_code "bogus" indexed_portfolio
    = (indexed_portfolio, coeff (ledger_ indexed_portfolio) 0) /\
  (forall price cost,
     close_string "bogus" price cost indexed_portfolio
       = close_int 0 price cost indexed_portfolio) /\
  close_string "bogus" 10 0 indexed_portfolio
    <> (indexed_portfolio, Throw out_of_range).
Proof.
  split.
  { cbn. intros Hin. apply list_elem_of_In in Hin. destruct Hin as [Heq|[]].
    discriminate. }
  split; [reflexivity|]. split; [reflexivity|].
  split; [reflexivity|]. intros H. apply (f_equal snd) in H. discriminate.
Qed.

(** C8 at its failing input: on the portfolio holding 100 units of X,
    "bogus" is not an asset and [close("bogus", 10.0, 0.)] throws; once
    [portfolio["bogus"]] has been evaluated on it, the same call throws
    nothing: the lookup yields index 0, the call is [close(0, 10.0, 0.)], and
    it returns and flattens the position in X. *)
Theorem close_string_after_op_index :
  ("bogus" ∉ map code (assets_ indexed_portfolio)) /\
  close_string "bogus" 10 0 holding_portfolio
    = (holding_portfolio, Throw out_of_range) /\
  close_string "bogus" 10 0 indexed_portfolio
    = close_int 0 10 0 indexed_portfolio /\
  exists p',
    close_string "bogus" 10 0 indexed_portfolio = (p', Return tt) /\
    ledger_ indexed_portfolio = [0 + 100] /\
    ledger_ p' = [0 + 100 + - (0 + 100)].
Proof.
  split.
  - cbn. intros Hin. apply list_elem_of_In in Hin. destruct Hin as [Heq|[]].
    discriminate.
  - split; [reflexivity|]. split; [reflexivity|].
    eexists. split; [reflexivity|]. split; reflexivity.
Qed.

End PortfolioFacts.

(** ** The update block, on the modelled transaction and on the prototype *)

Module TransactionFacts.
Import PortfolioH.
Local Open Scope Q_scope.




End TransactionFacts.

(** ** The generator Synth *)

Module SynthFacts.
Import DataSource.
Local Open Scope R_scope.

Lemma length_push_assets (n i : nat) (l : list string) :
  length (push_assets i n l) = (length l + n)%nat.
Proof.
  revert i l. induction n as [|n IH]; intros i l; simpl; [lia|].
  rewrite IH, length_app. simpl. lia.
Qed.

Lemma Synth_of_vectors_Return (f m a ph : list R) (d : R) (s0 : Synth) :
  Synth_of_vectors f m a ph d = Return s0 ->
  s0 = initParams f m a ph d Synth_fresh /\
  length m = length f /\ length a = length f /\ length ph = length f.
Proof.
  unfold Synth_of_vectors.
  destruct (Nat.eqb_spec (length f) (length m)); [|discriminate].
  destruct (Nat.eqb_spec (length m) (length a)); [|discriminate].
  destruct (Nat.eqb_spec (length a) (length ph)); [|discriminate].
  simpl. intros [= <-]. repeat split; congruence.
Qed.

Lemma initParams_shaped (f m a ph : list R) (d : R) :
  length m = length f -> length a = length f -> length ph = length f ->
  shaped (length f) (initParams f m a ph d Synth_fresh).
Proof.
  intros Hm Ha Hp. unfold shaped, initParams. cbn.
  rewrite repeat_length, length_push_assets. cbn. repeat split; auto.
Qed.

(** One iteration of the loop at an index in range. *)
Lemma getData_step_run (n i : nat) (s : Synth) :
  shaped n s -> (i < n)%nat ->
  exists m a xi f s',
    mu s !! i = Some m /\ amp s !! i = Some a /\ x s !! i = Some xi /\
    freq s !! i = Some f /\
    getData_step i s = (s', Return tt) /\
    shaped n s' /\ same_params s s' /\
    x s' = <[i := xi + dX s]> (x s) /\
    currentData_ s' = <[i := m + a * sin (PI2 * xi * f)]> (currentData_ s).
Proof.
  intros (Hf & Hm & Ha & Hx & Hc & Hn) Hi.
  destruct (lookup_lt_is_Some_2 (mu s) i) as [m Em]; [lia|].
  destruct (lookup_lt_is_Some_2 (amp s) i) as [a Ea]; [lia|].
  destruct (lookup_lt_is_Some_2 (x s) i) as [xi Ex]; [lia|].
  destruct (lookup_lt_is_Some_2 (freq s) i) as [f Ef]; [lia|].
  exists m, a, xi, f. unfold getData_step. rewrite Em, Ea, Ex, Ef.
  destruct (Nat.ltb_spec i (length (currentData_ s))); [|lia].
  eexists. repeat split; try reflexivity; cbn; rewrite ?length_insert; auto.
Qed.

(** The loop from index [i] to the end: the entries below [i] stay, each
    entry from [i] on gets its new observation and its abscissa moves by
    [dX]. *)
Lemma getData_loop_run (n k i : nat) (s : Synth) :
  shaped n s -> (i + k = n)%nat ->
  exists s',
    getData_loop k i s = (s', Return tt) /\
    shaped n s' /\ same_params s s' /\
    (forall j, (j < i)%nat ->
       x s' !! j = x s !! j /\ currentData_ s' !! j = currentData_ s !! j) /\
    (forall j m a xj f, (i <= j)%nat ->
       mu s !! j = Some m -> amp s !! j = Some a -> x s !! j = Some xj ->
       freq s !! j = Some f ->
       x s' !! j = Some (xj + dX s) /\
       currentData_ s' !! j = Some (m + a * sin (PI2 * xj * f))).
Proof.
  revert i s. induction k as [|k IH]; intros i s Hs Hik.
  - exists s. split; [reflexivity|]. split; [exact Hs|].
    split; [unfold same_params; auto|]. split; [auto|].
    intros j m a xj f Hj _ _ Ex _. apply lookup_lt_Some in Ex.
    destruct Hs as (_&_&_&Hx&_). lia.
  - destruct (getData_step_run n i s Hs) as
      (m & a & xi & f & s1 & Em & Ea & Ex & Ef & Hrun & Hs1 & Hp1 & Hx1 & Hc1);
      [lia|].
    destruct (IH (S i) s1 Hs1) as (s' & Hloop & Hs' & Hp' & Hlow & Hhigh);
      [lia|].
    exists s'. cbn [getData_loop]. unfold bind. rewrite Hrun.
    split; [exact Hloop|]. split; [exact Hs'|].
    destruct Hp1 as (Pf & Pm & Pa & Pd & Pi).
    destruct Hp' as (Pf' & Pm' & Pa' & Pd' & Pi').
    split; [unfold same_params; repeat split; congruence|].
    assert (Hlen : (i < length (x s))%nat) by (eapply lookup_lt_Some; eauto).
    assert (Hlenc : (i < length (currentData_ s))%nat).
    { destruct Hs as (_&_&_&Hx&Hc&_). lia. }
    split.
    + intros j Hj. destruct (Hlow j) as [Hxj Hcj]; [lia|].
      rewrite Hxj, Hcj, Hx1, Hc1.
      rewrite !list_lookup_insert_ne by lia. auto.
    + intros j m' a' xj f' Hj Em' Ea' Ex' Ef'.
      destruct (decide (j = i)) as [->|Hne].
      * destruct (Hlow i) as [Hxj Hcj]; [lia|].
        rewrite Hxj, Hcj, Hx1, Hc1.
        rewrite !list_lookup_insert_eq by assumption.
        rewrite Em in Em'. rewrite Ea in Ea'. rewrite Ex in Ex'.
        rewrite Ef in Ef'. inversion Em'; inversion Ea'; inversion Ex';
          inversion Ef'; subst. auto.
      * rewrite <- Pd. apply Hhigh; [lia| | | |]; try congruence.
        rewrite Hx1. rewrite list_lookup_insert_ne by lia. exact Ex'.
Qed.

(** One call of [getData] on a well-shaped generator. *)
Lemma Synth_getData_run (n : nat) (s : Synth) :
  shaped n s ->
  exists s',
    Synth_getData s = (s', Return (currentData_ s')) /\
    shaped n s' /\ same_params s s' /\
    (forall j m a xj f,
       mu s !! j = Some m -> amp s !! j = Some a -> x s !! j = Some xj ->
       freq s !! j = Some f ->
       x s' !! j = Some (xj + dX s) /\
       currentData_ s' !! j = Some (m + a * sin (PI2 * xj * f))).
Proof.
  intros Hs.
  destruct (getData_loop_run n n 0 s Hs) as (s' & Hloop & Hs' & Hp & _ & Hhigh);
    [lia|].
  exists s'. unfold Synth_getData, bind.
  assert (Hn : nAssets s = n) by (destruct Hs as (_&_&_&_&_&Hn); exact Hn).
  rewrite Hn, Hloop. split; [reflexivity|]. split; [exact Hs'|].
  split; [exact Hp|]. intros j m a xj f. apply Hhigh. lia.
Qed.

Lemma after_getData (f m a ph : list R) (d : R) (t : nat) (s : Synth) :
  length ph = length f ->
  after f m a ph d t s ->
  exists s',
    Synth_getData s = (s', Return (currentData_ s')) /\
    after f m a ph d (S t) s' /\
    length (currentData_ s') = length f /\
    forall j fj mj aj pj,
      f !! j = Some fj -> m !! j = Some mj -> a !! j = Some aj ->
      ph !! j = Some pj ->
      currentData_ s' !! j = Some (code_price mj aj pj fj d t).
Proof.
  intros Hph (Hs & Hf & Hm & Ha & Hd & Hx).
  destruct (Synth_getData_run _ s Hs) as (s' & Hrun & Hs' & Hp & Hobs).
  destruct Hp as (Pf & Pm & Pa & Pd & _).
  exists s'. split; [exact Hrun|]. split; [|split].
  - unfold after. split; [exact Hs'|].
    split; [congruence|]. split; [congruence|]. split; [congruence|].
    split; [congruence|].
    intros j p Hj.
    assert (Hjn : (j < length f)%nat).
    { apply lookup_lt_Some in Hj. lia. }
    destruct Hs as (Lf & Lm & La & _).
    destruct (lookup_lt_is_Some_2 (freq s) j) as [fj Ef]; [lia|].
    destruct (lookup_lt_is_Some_2 (mu s) j) as [mj Em]; [lia|].
    destruct (lookup_lt_is_Some_2 (amp s) j) as [aj Ea]; [lia|].
    destruct (Hobs j mj aj _ fj Em Ea (Hx j p Hj) Ef) as [Hx' _].
    rewrite Hx', Hd, S_INR. f_equal. ring.
  - destruct Hs' as (_&_&_&_&Hc&_). exact Hc.
  - intros j fj mj aj pj Ef Em Ea Ep. subst f m a.
    destruct (Hobs j mj aj _ fj Em Ea (Hx j pj Ep) Ef) as [_ Hc].
    rewrite Hc. unfold code_price. reflexivity.
Qed.

Lemma after_initParams (f m a ph : list R) (d : R) :
  length m = length f -> length a = length f -> length ph = length f ->
  after f m a ph d 0 (initParams f m a ph d Synth_fresh).
Proof.
  intros Hm Ha Hp. split; [now apply initParams_shaped|].
  repeat split; try reflexivity.
  intros j p Hj. cbn. rewrite Hj. f_equal. ring.
Qed.

Lemma advance_after (f m a ph : list R) (d : R) (t u : nat) (s1 : Synth) :
  length ph = length f ->
  after f m a ph d u s1 ->
  exists s, advance t s1 = (s, Return tt) /\ after f m a ph d (u + t) s.
Proof.
  intros Hp. revert u s1. induction t as [|t IH]; intros u s1 H1.
  - exists s1. split; [reflexivity|]. now rewrite Nat.add_0_r.
  - destruct (after_getData _ _ _ _ _ _ _ Hp H1) as (s2 & Hrun & H2 & _).
    destruct (IH (S u) s2 H2) as (s & Hs & Hafter).
    exists s. cbn [advance]. unfold bind. cbn [getData Synth_DataSource].
    rewrite Hrun. split; [exact Hs|].
    now replace (u + S t)%nat with (S u + t)%nat by lia.
Qed.

(** A generator made from vectors of one length returns from [t] calls, and
    its next call returns, for each asset, the observation [code_price] at
    [t]. *)
Lemma Synth_observation (f m a ph : list R) (d : R) (s0 : Synth) (t : nat) :
  Synth_of_vectors f m a ph d = Return s0 ->
  exists s s' obs,
    advance t s0 = (s, Return tt) /\
    getData s = (s', Return obs) /\
    length obs = length f /\
    forall j fj mj aj pj,
      f !! j = Some fj -> m !! j = Some mj -> a !! j = Some aj ->
      ph !! j = Some pj ->
      obs !! j = Some (code_price mj aj pj fj d t).
Proof.
  intros Hctor.
  destruct (Synth_of_vectors_Return _ _ _ _ _ _ Hctor) as (-> & Hm & Ha & Hp).
  destruct (advance_after f m a ph d t 0 _ Hp
              (after_initParams f m a ph d Hm Ha Hp)) as (s & Hadv & Hafter).
  destruct (after_getData _ _ _ _ _ _ _ Hp Hafter)
    as (s' & Hrun & _ & Hlen & Hobs).
  exists s, s', (currentData_ s'). split; [exact Hadv|].
  split; [exact Hrun|]. split; [exact Hlen|exact Hobs].
Qed.

Lemma code_price_formula (m a p f d : R) (t : nat) :
  code_price m a p f d t = m + a * sin (2 * PI * f * (p + INR t * d)).
Proof.
  unfold code_price, PI2. do 3 f_equal. ring.
Qed.

(** C3 (as amended): a periodic generator made from per-asset vectors of one
    length returns from any number [t] of calls of [getData], and its next
    call, call number [t] counted from 0, returns for every asset [i] the
    observation [mu_i + amp_i * sin(2 pi freq_i (phase_i + t dX))]: the
    frequency multiplies the phase as well as the elapsed steps. *)
Theorem Synth_getData_formula (f m a ph : list R) (d : R) (s0 : Synth)
    (t : nat) :
  Synth_of_vectors f m a ph d = Return s0 ->
  exists s s' obs,
    advance t s0 = (s, Return tt) /\
    getData s = (s', Return obs) /\
    length obs = length f /\
    forall i fi mi ai pi,
      f !! i = Some fi -> m !! i = Some mi -> a !! i = Some ai ->
      ph !! i = Some pi ->
      obs !! i = Some (mi + ai * sin (2 * PI * fi * (pi + INR t * d))).
Proof.
  intros Hctor.
  destruct (Synth_observation f m a ph d s0 t Hctor)
    as (s & s' & obs & Hadv & Hrun & Hlen & Hobs).
  exists s, s', obs. repeat split; auto.
  intros i fi mi ai pi Hf Hm Ha Hp.
  rewrite <- code_price_formula. now apply Hobs.
Qed.

(** C3 (as amended) on the default parameters of the generator, at its
    fourth call. *)
Lemma Synth_getData_formula_default :
  exists s s' obs,
    advance 3 Synth_default = (s, Return tt) /\
    getData s = (s', Return obs) /\
    length obs = 4%nat /\
    obs !! 1%nat =
      Some (21 / 10 + 12 / 10 * sin (2 * PI * (3 / 10) * (1 + INR 3 * (1 / 100)))).
Proof.
  destruct (Synth_getData_formula
              [1; 3 / 10; 2; 1 / 2] [2; 21 / 10; 22 / 10; 23 / 10]
              [1; 12 / 10; 13 / 10; 1] [0; 1; 2; 1] (1 / 100)
              Synth_default 3 eq_refl)
    as (s & s' & obs & Hadv & Hrun & Hlen & Hobs).
  exists s, s', obs. split; [exact Hadv|]. split; [exact Hrun|].
  split; [exact Hlen|].
  apply (Hobs 1%nat); reflexivity.
Defined.

(** C3 as stated fails: for one asset with frequency 1/2, phase 1/2,
    amplitude 1 and mean 0, the first call of [getData] returns 1, while the
    formula of the specification gives 0, both at step 0 and at step 1. *)
Lemma Synth_first_observation :
  exists s0 s1 obs,
    Synth_of_vectors [1 / 2] [0] [1] [1 / 2] 1 = Return s0 /\
    getData s0 = (s1, Return obs) /\
    obs !! 0%nat = Some 1 /\
    spec_price 0 1 (1 / 2) (1 / 2) 1 0 = 0 /\
    spec_price 0 1 (1 / 2) (1 / 2) 1 1 = 0.
Proof.
  destruct (Synth_observation [1 / 2] [0] [1] [1 / 2] 1 _ 0 eq_refl)
    as (s & s1 & obs & Hadv & Hrun & _ & Hobs).
  cbn [advance ret] in Hadv. inversion Hadv; subst s.
  eexists; exists s1, obs. split; [reflexivity|]. split; [exact Hrun|].
  split; [|split].
  - rewrite (Hobs 0%nat (1 / 2) 0 1 (1 / 2)) by reflexivity.
    f_equal. unfold code_price, PI2. cbn [INR].
    replace (2 * PI * (1 / 2 + 0 * 1) * (1 / 2)) with (PI / 2) by field.
    rewrite sin_PI2. ring.
  - unfold spec_price. cbn [INR].
    replace (2 * PI * (1 / 2 + 0 * (1 / 2) * 1)) with PI by field.
    rewrite sin_PI. ring.
  - unfold spec_price. cbn [INR].
    replace (2 * PI * (1 / 2 + 1 * (1 / 2) * 1)) with (2 * PI) by field.
    rewrite sin_2PI. ring.
Qed.

(** The typed constructor rejects vectors of different lengths. *)
Lemma Synth_of_vectors_mismatch (f m a ph : list R) (d : R) :
  ~ (length f = length m /\ length m = length a /\ length a = length ph) ->
  Synth_of_vectors f m a ph d = Throw length_error.
Proof.
  intros H. unfold Synth_of_vectors.
  destruct (Nat.eqb_spec (length f) (length m));
    destruct (Nat.eqb_spec (length m) (length a));
    destruct (Nat.eqb_spec (length a) (length ph)); cbn; try reflexivity.
  tauto.
Qed.

(** The configuration constructor rejects a configuration without generator
    parameters. *)
Lemma Synth_of_Config_no_generator_params (config : Config) :
  config !! "generator_params" = None ->
  Synth_of_Config config = Throw ConfigError.
Proof. intros H. unfold Synth_of_Config. now rewrite H. Qed.

Lemma check_keys_missing (params : Config) (keys : list string) (key : string) :
  key ∈ keys -> params !! key = None ->
  check_keys params keys = Throw ConfigError.
Proof.
  intros Hin Hnone. induction keys as [|k keys IH]; [inversion Hin|].
  cbn. destruct (decide (k = key)) as [->|Hne].
  - now rewrite Hnone.
  - destruct (params !! k); [|reflexivity]. apply IH.
    apply elem_of_cons in Hin. destruct Hin; congruence.
Qed.

(** The configuration constructor rejects generator parameters that lack a
    required key. *)
Lemma Synth_of_Config_missing_key (config params : Config) (key : string) :
  config !! "generator_params" = Some (any_Config params) ->
  key ∈ ["freq"; "mu"; "amp"; "phase"; "dX"] ->
  params !! key = None ->
  Synth_of_Config config = Throw ConfigError.
Proof.
  intros Hgp Hin Hnone. unfold Synth_of_Config. rewrite Hgp. cbn [any_cast_Config obind].
  now rewrite (check_keys_missing params _ key Hin Hnone).
Qed.

(** C5 at its failing input: the configuration constructor accepts a
    configuration whose per-asset vectors have different lengths.  The
    object it returns counts two assets and has one mean; its first
    [getData] reads [mu[1]] past the end of the vector.  The typed
    constructor rejects the same vectors. *)
Theorem Synth_of_Config_uneven :
  exists s,
    Synth_of_Config uneven_config = Return s /\
    nAssets s = 2%nat /\ length (freq s) = 2%nat /\ length (mu s) = 1%nat /\
    snd (Synth_getData s) = Undefined /\
    Synth_of_vectors (freq s) (mu s) (amp s) (initPhase s) (dX s)
      = Throw length_error.
Proof.
  eexists. split; [reflexivity|]. repeat split; reflexivity.
Qed.

End SynthFacts.

(** ** File-backed and composite sources *)

Module SourceFacts.
Import DataSource.







(** The multi-asset file source declares no window, does not override
    [dataEnd] and has an empty [reset]: in every state it reports no end of
    data, and [reset] leaves it as it is. *)
Lemma HDFSourceMulti_no_window (m : HDFSourceMulti) :
  HDFSourceMulti_dataEnd m = false /\ HDFSourceMulti_reset m = m.
Proof. split; reflexivity. Qed.

Lemma reset_sources_spec (i : nat) (sources : list Source) :
  reset_sources i sources =
    (map Source_reset sources, map call_reset (seq i (length sources))).
Proof.
  revert i. induction sources as [|s sources IH]; intros i; cbn;
    [reflexivity|]. now rewrite IH.
Qed.

(** C10: [reset] on a composite calls [reset] on each of its children exactly
    once: child number [i] after the call is child number [i] before it with
    its own [reset] applied once, for a child of any class; the calls made
    are one [reset] per child, in order, and no other; and the timestamp, the
    cached data and prices and the feature count of the composite are as
    before. *)
Theorem Composite_reset_spec (c : Composite) :
  let n := length (dataSources_ c) in
  let c' := fst (Composite_reset c) in
  let calls := snd (Composite_reset c) in
  length (dataSources_ c') = n /\
  (forall i s, dataSources_ c !! i = Some s ->
     dataSources_ c' !! i =
       Some {| src_state := src_state s; src_class := src_class s;
               src_obj := @reset _ _ (src_class s) (src_obj s) |}) /\
  calls = map call_reset (seq 0 n) /\
  NoDup calls /\
  (forall i, call_reset i ∈ calls <-> i < n) /\
  (forall i, call_getData i ∉ calls) /\
  c_timestamp_ c' = c_timestamp_ c /\
  c_currentData_ c' = c_currentData_ c /\
  c_currentPrices_ c' = c_currentPrices_ c /\
  c_nFeats_ c' = c_nFeats_ c.
Proof.
  unfold Composite_reset. rewrite reset_sources_spec. cbn.
  split; [apply length_map|]. split.
  { intros i s Hs. rewrite list_lookup_fmap, Hs. reflexivity. }
  split; [reflexivity|]. split; [|split; [|split]].
  - apply NoDup_fmap_2; [intros a b [= ->]; reflexivity|apply NoDup_seq].
  - intros i. rewrite list_elem_of_fmap. split.
    + intros (j & [= ->] & Hj). apply elem_of_seq in Hj. lia.
    + intros Hi. exists i. split; [reflexivity|]. apply elem_of_seq. lia.
  - intros i Hin. apply list_elem_of_fmap in Hin.
    destruct Hin as (j & Hj & _). discriminate.
  - repeat split.
Qed.

(** C10 on a composite with two counting children around a periodic
    generator: after [reset] each counter of resets is one higher, no
    counter of advances has moved, and the generator, whose [reset] is
    empty, is as before. *)
Lemma Composite_reset_spec_probed :
  let c' := fst (Composite_reset probed_composite) in
  length (dataSources_ c') = 3 /\
  dataSources_ c' !! 0 = Some (Source_of_Probe {| resets := 1; advances := 0 |}) /\
  dataSources_ c' !! 1 = Some (Source_of_Synth Synth_default) /\
  dataSources_ c' !! 2 = Some (Source_of_Probe {| resets := 6; advances := 2 |}) /\
  c_timestamp_ c' = 7.
Proof.
  destruct (Composite_reset_spec probed_composite)
    as (Hlen & Hchild & _ & _ & _ & _ & Htime & _).
  split; [exact Hlen|].
  split; [exact (Hchild 0 _ eq_refl)|].
  split; [exact (Hchild 1 _ eq_refl)|].
  split; [exact (Hchild 2 _ eq_refl)|exact Htime].
Defined.

End SourceFacts.

(** ** More on the accounting prototype *)

Module NotebookMore.
Import Notebook NotebookFacts.
Local Open Scope Q_scope.

(** What one cash order does to each book entry. *)
Lemma transaction_cash_run (prices : dict) (self : Portfolio)
    (asset_name : string) (units price held : Q) :
  dict_get prices asset_name = Some price ->
  dict_get (ledger self) asset_name = Some held ->
  transaction_cash prices asset_name units self =
    (set_ledger (dict_set (ledger self) asset_name (held + units))
       (set_cash (_cash self - price * units) self), Return tt).
Proof.
  intros Hp Hl. unfold transaction_cash, bind, subscript, ledger_add, get, put.
  rewrite Hp. cbn. unfold bind, subscript. rewrite Hl. reflexivity.
Qed.

(** X1: a cash order of a held asset at its current price returns; it takes
    [price * units] from the cash, adds [units] to the ledger entry, leaves
    used margin and borrowed cash alone, and keeps equity at the unchanged
    prices. *)
Theorem transaction_cash_deltas (prices : dict) (self : Portfolio)
    (asset_name : string) (units price held : Q) :
  dict_get prices asset_name = Some price ->
  dict_get (ledger self) asset_name = Some held ->
  exists self',
    transaction_cash prices asset_name units self = (self', Return tt) /\
    _cash self' == _cash self - units * price /\
    _borrowed_cash self' = _borrowed_cash self /\
    _used_margin self' = _used_margin self /\
    dict_get (ledger self') asset_name = Some (held + units) /\
    (forall k, k <> asset_name ->
       dict_get (ledger self') k = dict_get (ledger self) k) /\
    (forall e, equity prices self = Return e ->
       exists e', equity prices self' = Return e' /\ e' == e).
Proof.
  intros Hp Hl. eexists. split; [apply (transaction_cash_run _ _ _ _ _ _ Hp Hl)|].
  cbn [_cash _borrowed_cash _used_margin ledger set_ledger set_cash].
  split; [ring|]. split; [reflexivity|]. split; [reflexivity|].
  split; [apply dict_get_set_same|].
  split; [intros k Hk; apply dict_get_set_other; congruence|].
  intros e. unfold equity, assets_value.
  cbn [_cash _borrowed_cash ledger set_ledger set_cash].
  destruct (sum_values prices (ledger self) 0) as [a| |] eqn:Hs; try discriminate.
  intros He. inversion He; subst e.
  destruct (sum_values_set prices (ledger self) asset_name price held units 0 a
              Hp Hl Hs) as (a' & Ha' & Haeq).
  rewrite Ha'. eexists. split; [reflexivity|]. rewrite Haeq. ring.
Qed.

(** X1 on the scenario book, used as a cash account. *)
Lemma transaction_cash_deltas_scenario :
  exists self',
    transaction_cash scenario_prices "X" 1000 scenario_account
      = (self', Return tt) /\
    _cash self' == 990000 /\
    exists e, equity scenario_prices self' = Return e /\ e == 1000000.
Proof.
  destruct (transaction_cash_deltas scenario_prices scenario_account "X"
              1000 10 0 eq_refl eq_refl)
    as (self' & Hrun & Hc & _ & _ & _ & _ & He).
  exists self'. split; [exact Hrun|].
  split; [rewrite Hc; vm_compute; reflexivity|].
  destruct (He 1000000 eq_refl) as (e' & He' & Hee).
  exists e'. split; [exact He'|exact Hee].
Defined.

(** X2: an order for an asset that has no current price raises [KeyError]
    for that asset before anything is written: the book is exactly as
    before, for the cash transaction, the margin transaction and [order] on
    an account of either type. *)
Theorem order_unpriced_asset (prices : dict) (self : Portfolio)
    (asset_name : string) (units : Q) :
  dict_get prices asset_name = None ->
  transaction_cash prices asset_name units self
    = (self, Throw (KeyError asset_name)) /\
  transaction_margin prices asset_name units self
    = (self, Throw (KeyError asset_name)) /\
  (type self = "cash"%string \/ type self = "margin"%string ->
   order prices asset_name units self = (self, Throw (KeyError asset_name))).
Proof.
  intros Hp.
  assert (Hc : transaction_cash prices asset_name units self
               = (self, Throw (KeyError asset_name))).
  { unfold transaction_cash, bind, subscript. now rewrite Hp. }
  assert (Hm : transaction_margin prices asset_name units self
               = (self, Throw (KeyError asset_name))).
  { unfold transaction_margin, bind, subscript. now rewrite Hp. }
  split; [exact Hc|]. split; [exact Hm|].
  intros [Ht|Ht]; unfold order, bind, get; rewrite Ht; cbn; assumption.
Qed.

(** X2 on the scenario book and an asset without a price. *)
Lemma order_unpriced_asset_scenario :
  order scenario_prices "Y" 5 scenario_account
    = (scenario_account, Throw (KeyError "Y")).
Proof.
  destruct (order_unpriced_asset scenario_prices scenario_account "Y" 5 eq_refl)
    as (_ & _ & H).
  apply H. right. reflexivity.
Defined.

(** X3: a margin order for an asset that has a price but no ledger entry
    raises [KeyError] only after the money entries were written: the ledger
    is as before, but cash, borrowed cash and used margin already carry the
    trade, so the cash is different whenever the margin amount is not zero. *)
Theorem transaction_margin_unheld_asset (prices : dict) (self : Portfolio)
    (asset_name : string) (units price : Q) :
  dict_get prices asset_name = Some price ->
  dict_get (ledger self) asset_name = None ->
  exists self',
    transaction_margin prices asset_name units self
      = (self', Throw (KeyError asset_name)) /\
    ledger self' = ledger self /\
    _cash self' == _cash self - units * price * initial_margin self /\
    _borrowed_cash self' ==
      _borrowed_cash self + units * price * (1 - initial_margin self) /\
    _used_margin self' ==
      _used_margin self + units * price * initial_margin self /\
    (~ units * price * initial_margin self == 0 ->
     ~ _cash self' == _cash self).
Proof.
  intros Hp Hl. eexists. split.
  - unfold transaction_margin, bind, subscript, ledger_add, get, put.
    rewrite Hp. cbn. unfold bind, subscript. rewrite Hl. reflexivity.
  - cbn. split; [reflexivity|]. split; [ring|]. split; [ring|].
    split; [ring|]. intros Hnz Heq. apply Hnz.
    assert (H : units * price * initial_margin self ==
                _cash self - (_cash self - price * units * initial_margin self))
      by ring.
    rewrite H, Heq. ring.
Qed.

(** X3 on the scenario account, with a price for an asset Y it does not
    hold. *)
Lemma transaction_margin_unheld_asset_scenario :
  exists self',
    transaction_margin [("X"%string, 10); ("Y"%string, 4)] "Y" 100
      scenario_account = (self', Throw (KeyError "Y")) /\
    ledger self' = ledger scenario_account /\
    _cash self' == 1000000 - 80.
Proof.
  destruct (transaction_margin_unheld_asset
              [("X"%string, 10); ("Y"%string, 4)] scenario_account "Y" 100 4
              eq_refl eq_refl) as (self' & Hrun & Hl & Hc & _).
  exists self'. split; [exact Hrun|]. split; [exact Hl|].
  rewrite Hc. vm_compute. reflexivity.
Defined.

(** X4: on a margin account, an order followed by the opposite order at the
    same prices brings every entry of the book back to its value: cash,
    borrowed cash, used margin (which the prototype keeps signed), the ledger
    entry of the asset and all other ledger entries. *)
Theorem transaction_margin_there_and_back (prices : dict) (self : Portfolio)
    (asset_name : string) (units price held : Q) :
  dict_get prices asset_name = Some price ->
  dict_get (ledger self) asset_name = Some held ->
  exists self1 self2 back,
    transaction_margin prices asset_name units self = (self1, Return tt) /\
    transaction_margin prices asset_name (- units) self1 = (self2, Return tt) /\
    _cash self2 == _cash self /\
    _borrowed_cash self2 == _borrowed_cash self /\
    _used_margin self2 == _used_margin self /\
    dict_get (ledger self2) asset_name = Some back /\ back == held /\
    (forall k, k <> asset_name ->
       dict_get (ledger self2) k = dict_get (ledger self) k).
Proof.
  intros Hp Hl.
  pose proof (transaction_margin_run prices self asset_name units price held
                Hp Hl) as H1.
  set (self1 := fst (transaction_margin prices asset_name units self)).
  assert (Hl1 : dict_get (ledger self1) asset_name = Some (held + units)).
  { subst self1. rewrite H1. cbn. apply dict_get_set_same. }
  pose proof (transaction_margin_run prices self1 asset_name (- units) price
                (held + units) Hp Hl1) as H2.
  exists self1. eexists. exists (held + units + - units).
  split; [subst self1; rewrite H1; reflexivity|]. split; [exact H2|].
  subst self1. rewrite H1. cbn.
  split; [ring|]. split; [ring|]. split; [ring|].
  split; [apply dict_get_set_same|]. split; [ring|].
  intros k Hk. rewrite !dict_get_set_other by congruence. reflexivity.
Qed.

(** X4 on the scenario account: 1000 units of X bought and sold at 10.0. *)
Lemma transaction_margin_there_and_back_scenario :
  exists self1 self2,
    transaction_margin scenario_prices "X" 1000 scenario_account
      = (self1, Return tt) /\
    transaction_margin scenario_prices "X" (- 1000) self1
      = (self2, Return tt) /\
    _cash self2 == 1000000 /\ _used_margin self2 == 0.
Proof.
  destruct (transaction_margin_there_and_back scenario_prices scenario_account
              "X" 1000 10 0 eq_refl eq_refl)
    as (self1 & self2 & back & H1 & H2 & Hc & _ & Hu & _).
  exists self1, self2. split; [exact H1|]. split; [exact H2|].
  split; [exact Hc|exact Hu].
Defined.

(** One order of a priced and held asset, on an account of any type: it
    returns, keeps equity, and keeps the set of ledger keys. *)
Lemma order_step (prices : dict) (self : Portfolio) (asset_name : string)
    (units e : Q) :
  is_Some (dict_get prices asset_name) ->
  is_Some (dict_get (ledger self) asset_name) ->
  equity prices self = Return e ->
  exists self' e',
    order prices asset_name units self = (self', Return tt) /\
    equity prices self' = Return e' /\ e' == e /\
    (forall k, is_Some (dict_get (ledger self) k) ->
               is_Some (dict_get (ledger self') k)).
Proof.
  intros [price Hp] [held Hl] He.
  assert (Hkeys : forall k,
            is_Some (dict_get (ledger self) k) ->
            is_Some (dict_get (dict_set (ledger self) asset_name
                                 (held + units)) k)).
  { intros k Hk. destruct (decide (k = asset_name)) as [->|Hne].
    - rewrite dict_get_set_same. eauto.
    - rewrite dict_get_set_other by congruence. exact Hk. }
  unfold equity, assets_value in He.
  destruct (sum_values prices (ledger self) 0) as [a| |] eqn:Hs;
    try discriminate.
  inversion He; subst e.
  destruct (sum_values_set prices (ledger self) asset_name price held units 0 a
              Hp Hl Hs) as (a' & Ha' & Haeq).
  unfold order, bind, get.
  destruct (String.eqb (type self) "cash") eqn:Ec.
  - rewrite (transaction_cash_run _ _ _ _ _ _ Hp Hl).
    eexists. eexists. split; [reflexivity|]. unfold equity, assets_value.
    cbn [_cash _borrowed_cash ledger set_ledger set_cash]. rewrite Ha'.
    split; [reflexivity|]. split; [rewrite Haeq; ring|exact Hkeys].
  - destruct (String.eqb (type self) "margin") eqn:Em.
    + rewrite (transaction_margin_run _ _ _ _ _ _ Hp Hl).
      eexists. eexists. split; [reflexivity|]. unfold equity, assets_value.
      cbn [_cash _borrowed_cash ledger]. rewrite Ha'.
      split; [reflexivity|]. split; [rewrite Haeq; ring|exact Hkeys].
    + exists self. eexists. split; [reflexivity|]. unfold equity, assets_value.
      rewrite Hs. split; [reflexivity|]. split; [reflexivity|auto].
Qed.

(** X5: any chain of orders of priced and held assets, placed at unchanged
    prices on an account of any type, returns and leaves equity where it
    was. *)
Theorem order_all_keeps_equity (prices : dict) (orders : list (string * Q))
    (self : Portfolio) (e : Q) :
  Forall (fun o => is_Some (dict_get prices (fst o)) /\
                   is_Some (dict_get (ledger self) (fst o))) orders ->
  equity prices self = Return e ->
  exists self' e',
    order_all prices orders self = (self', Return tt) /\
    equity prices self' = Return e' /\ e' == e.
Proof.
  revert self e. induction orders as [|[a u] orders IH]; intros self e Hall He.
  - exists self, e. split; [reflexivity|]. split; [exact He|reflexivity].
  - inversion Hall as [|o os [Hp Hl] Hrest]; subst. cbn [fst] in Hp, Hl.
    destruct (order_step prices self a u e Hp Hl He)
      as (self1 & e1 & Hrun & He1 & Hee1 & Hkeys).
    destruct (IH self1 e1) as (self' & e' & Hrun' & He' & Hee').
    + eapply Forall_impl; [exact Hrest|]. intros o [Ho1 Ho2]. split; auto.
    + exact He1.
    + exists self', e'. cbn [order_all]. unfold bind at 1. rewrite Hrun.
      split; [exact Hrun'|]. split; [exact He'|]. now rewrite Hee'.
Qed.

(** X5 on the scenario account: three orders of X in a row. *)
Lemma order_all_keeps_equity_scenario :
  exists self' e',
    order_all scenario_prices
      [("X"%string, 1000); ("X"%string, - 1500); ("X"%string, 200)]
      scenario_account = (self', Return tt) /\
    equity scenario_prices self' = Return e' /\ e' == 1000000.
Proof.
  apply (order_all_keeps_equity scenario_prices
           [("X"%string, 1000); ("X"%string, - 1500); ("X"%string, 200)]
           scenario_account 1000000).
  - repeat constructor; cbn; eauto.
  - reflexivity.
Defined.

Lemma dict_get_zeros_from (assets : list string) (d : dict) (k : string) :
  dict_get (fold_left (fun d a => dict_set d a 0) assets d) k =
    if decide (k ∈ assets) then Some 0 else dict_get d k.
Proof.
  revert d. induction assets as [|a assets IH]; intros d; cbn [fold_left].
  - destruct (decide (k ∈ [])) as [Hin|_]; [inversion Hin|reflexivity].
  - rewrite IH. destruct (decide (k ∈ assets)) as [Hin|Hnin].
    + rewrite decide_True by (now right). reflexivity.
    + destruct (decide (k = a)) as [->|Hne].
      * rewrite decide_True by (now left). apply dict_get_set_same.
      * rewrite decide_False.
        -- apply dict_get_set_other. congruence.
        -- intros Hin. apply elem_of_cons in Hin. tauto.
Qed.

Lemma keys_dict_set (d : dict) (k : string) (v : Q) :
  keys (dict_set d k v) =
    if decide (k ∈ keys d) then keys d else keys d ++ [k].
Proof.
  induction d as [|[k' v'] d IH]; cbn.
  - rewrite decide_False by (intros H; inversion H). reflexivity.
  - destruct (String.eqb_spec k k') as [->|Hne]; cbn.
    + rewrite decide_True by (now left). reflexivity.
    + fold (keys (dict_set d k v)). fold (keys d). rewrite IH.
      destruct (decide (k ∈ keys d)) as [Hin|Hnin].
      * rewrite decide_True by (now right). reflexivity.
      * rewrite decide_False; [reflexivity|].
        intros Hin. apply elem_of_cons in Hin. tauto.
Qed.

Lemma keys_zeros_from_NoDup (assets : list string) (d : dict) :
  NoDup (keys d) ->
  NoDup (keys (fold_left (fun d a => dict_set d a 0) assets d)).
Proof.
  revert d. induction assets as [|a assets IH]; intros d Hd; cbn; [exact Hd|].
  apply IH. rewrite keys_dict_set.
  destruct (decide (a ∈ keys d)); [exact Hd|].
  apply NoDup_app. split; [exact Hd|]. split.
  - intros x Hx Hx'. apply list_elem_of_singleton in Hx'. congruence.
  - apply NoDup_singleton.
Qed.

Lemma zeros_from_Forall (P : string * Q -> Prop) (assets : list string)
    (d : dict) :
  Forall P d -> (forall a, a ∈ assets -> P (a, 0)) ->
  (forall k v, P (k, v) -> P (k, 0)) ->
  Forall P (fold_left (fun d a => dict_set d a 0) assets d).
Proof.
  intros Hd Ha Hz. revert d Hd.
  induction assets as [|a assets IH]; intros d Hd; cbn; [exact Hd|].
  apply IH.
  - intros b Hb. apply Ha. now right.
  - assert (Pa : P (a, 0)) by (apply Ha; now left). clear - Hd Pa Hz.
    induction d as [|[k' v'] d IHd]; cbn.
    + constructor; [exact Pa|constructor].
    + inversion Hd; subst. destruct (String.eqb_spec a k') as [->|Hne].
      * constructor; [eapply Hz; eauto|assumption].
      * constructor; [assumption|apply IHd; assumption].
Qed.

Lemma sum_values_zero_holdings (prices items : dict) (acc : Q) :
  Forall (fun kv => is_Some (dict_get prices (fst kv)) /\ snd kv = 0) items ->
  exists e, sum_values prices items acc = Return e /\ e == acc.
Proof.
  revert acc. induction items as [|[k v] items IH]; intros acc Hall; cbn.
  - exists acc. split; reflexivity.
  - inversion Hall as [|kv kvs [[p Hp] Hv] Hrest]; subst. cbn in Hp, Hv.
    subst v. rewrite Hp. destruct (IH (acc + p * 0) Hrest) as (e & He & Hee).
    exists e. split; [exact He|]. rewrite Hee. ring.
Qed.

(** X6: a new book holds exactly the assets it was made for, each at 0 and
    each once, however often an asset is repeated in the list; its cash is
    the initial cash, nothing is borrowed or used; and when all its assets
    have a price its equity is the initial cash. *)
Theorem init_book (prices : dict) (assets : list string) (cash : Q)
    (acc_type : string) (margin : Q) :
  (forall a, a ∈ assets -> is_Some (dict_get prices a)) ->
  let self := __init__ assets cash acc_type margin in
  (forall k, dict_get (ledger self) k =
             if decide (k ∈ assets) then Some 0 else None) /\
  NoDup (keys (ledger self)) /\
  _cash self = cash /\ _borrowed_cash self = 0 /\ _used_margin self = 0 /\
  exists e, equity prices self = Return e /\ e == cash.
Proof.
  intros Hpriced self. subst self. cbn [ledger _cash _borrowed_cash _used_margin __init__].
  split; [intros k; apply (dict_get_zeros_from assets [] k)|].
  split; [apply keys_zeros_from_NoDup; constructor|].
  split; [reflexivity|]. split; [reflexivity|]. split; [reflexivity|].
  unfold equity, assets_value. cbn [ledger _cash _borrowed_cash __init__].
  destruct (sum_values_zero_holdings prices (dict_zeros assets) 0)
    as (e & He & Hee).
  - apply zeros_from_Forall.
    + constructor.
    + intros a Ha. split; [apply Hpriced; exact Ha|reflexivity].
    + intros k v [Hk _]. split; [exact Hk|reflexivity].
  - rewrite He. eexists. split; [reflexivity|]. rewrite Hee. ring.
Qed.

(** X6 on a book made for the list X, Y, X. *)
Lemma init_book_repeated_asset :
  keys (ledger (__init__ ["X"; "Y"; "X"]%string 500 "cash" 1))
    = ["X"; "Y"]%string /\
  exists e,
    equity [("X"%string, 10); ("Y"%string, 4)]
      (__init__ ["X"; "Y"; "X"]%string 500 "cash" 1) = Return e /\
    e == 500.
Proof.
  split; [reflexivity|].
  destruct (init_book [("X"%string, 10); ("Y"%string, 4)]
              ["X"; "Y"; "X"]%string 500 "cash" 1) as (_ & _ & _ & _ & _ & H).
  - intros a Ha. apply list_elem_of_In in Ha. cbn in Ha.
    destruct Ha as [<-|[<-|[<-|[]]]]; cbn; eauto.
  - exact H.
Defined.

(** X7: with an initial margin of 1 a margin order borrows nothing and has
    the same effect on cash and ledger as the cash order. *)
Theorem transaction_margin_full_margin (prices : dict) (self : Portfolio)
    (asset_name : string) (units price held : Q) :
  initial_margin self == 1 ->
  dict_get prices asset_name = Some price ->
  dict_get (ledger self) asset_name = Some held ->
  exists by_margin by_cash,
    transaction_margin prices asset_name units self = (by_margin, Return tt) /\
    transaction_cash prices asset_name units self = (by_cash, Return tt) /\
    ledger by_margin = ledger by_cash /\
    _cash by_margin == _cash by_cash /\
    _borrowed_cash by_margin == _borrowed_cash self /\
    _used_margin by_margin == _used_margin self + units * price.
Proof.
  intros Hr Hp Hl. eexists. eexists.
  split; [apply (transaction_margin_run _ _ _ _ _ _ Hp Hl)|].
  split; [apply (transaction_cash_run _ _ _ _ _ _ Hp Hl)|].
  cbn. split; [reflexivity|]. rewrite Hr. split; [ring|]. split; ring.
Qed.

(** X7 on the scenario prices and a margin account with full margin. *)
Lemma transaction_margin_full_margin_scenario :
  exists by_margin,
    transaction_margin scenario_prices "X" 1000
      (__init__ ["X"%string] 1000000 "margin" 1) = (by_margin, Return tt) /\
    _borrowed_cash by_margin == 0.
Proof.
  destruct (transaction_margin_full_margin scenario_prices
              (__init__ ["X"%string] 1000000 "margin" 1) "X" 1000 10 0)
    as (bm & bc & Hm & _ & _ & _ & Hb & _); try reflexivity.
  exists bm. split; [exact Hm|exact Hb].
Defined.

Lemma sum_negative_values_long (prices items : dict) (acc : Q) :
  Forall (fun kv => 0 <= snd kv) items ->
  sum_negative_values prices items acc = Return acc.
Proof.
  induction items as [|[k v] items IH]; intros Hall; cbn; [reflexivity|].
  inversion Hall as [|kv kvs Hv Hrest]; subst. cbn in Hv.
  destruct (Qlt_le_dec v 0) as [Hneg|_].
  - exfalso. apply (Qlt_not_le _ _ Hneg Hv).
  - apply IH. exact Hrest.
Qed.

Lemma sum_negative_values_le (prices items : dict) (acc b : Q) :
  (forall k p, dict_get prices k = Some p -> 0 <= p) ->
  sum_negative_values prices items acc = Return b -> b <= acc.
Proof.
  intros Hpos. revert acc. induction items as [|[k v] items IH];
    intros acc H; cbn in H.
  - inversion H; subst. apply Qle_refl.
  - destruct (Qlt_le_dec v 0) as [Hneg|_].
    + destruct (dict_get prices k) as [p|] eqn:Hp; [|discriminate].
      apply IH in H. apply Hpos in Hp.
      assert (p * v <= 0) by nra.
      lra.
    + now apply IH.
Qed.

(** X8: the borrowed asset value of a book without short positions is 0 and
    is computed without looking at any price, so it returns even when
    prices are missing; with prices that are not negative, the borrowed
    asset value of any book is at most 0. *)
Theorem borrowed_asset_value_sign (prices : dict) (self : Portfolio) :
  (Forall (fun kv => 0 <= snd kv) (ledger self) ->
   borrowed_asset_value prices self = Return 0) /\
  ((forall k p, dict_get prices k = Some p -> 0 <= p) ->
   forall b, borrowed_asset_value prices self = Return b -> b <= 0).
Proof.
  split.
  - intros H. now apply sum_negative_values_long.
  - intros H b Hb. now apply (sum_negative_values_le prices (ledger self) 0 b).
Qed.

(** X8 on a long book without prices, where the value of the assets raises
    [KeyError], and on a short book. *)
Lemma borrowed_asset_value_sign_examples :
  borrowed_asset_value [] scenario_account = Return 0 /\
  assets_value [] scenario_account = Throw (KeyError "X") /\
  forall b,
    borrowed_asset_value scenario_prices
      (set_ledger [("X"%string, - 3)] scenario_account) = Return b ->
    b <= 0.
Proof.
  destruct (borrowed_asset_value_sign [] scenario_account) as [Hlong _].
  destruct (borrowed_asset_value_sign scenario_prices
              (set_ledger [("X"%string, - 3)] scenario_account))
    as [_ Hshort].
  split; [apply Hlong; repeat constructor; discriminate|].
  split; [reflexivity|].
  apply Hshort. intros k p Hk. cbn in Hk.
  destruct (String.eqb k "X"); inversion Hk; subst. discriminate.
Defined.

End NotebookMore.

(** ** More on the C++ portfolio *)

Module PortfolioMore.
Import PortfolioH PortfolioFacts.
Local Open Scope Q_scope.

(** X9: [operator[]] with an asset code writes nothing but the index map,
    and there only the entry of that code; evaluated a second time it changes
    nothing at all and reads the same value. *)
Theorem op_index_code_again (p : Portfolio) (c : string) :
  let p1 := fst (op_index_code c p) in
  cash_ p1 = cash_ p /\ ledger_ p1 = ledger_ p /\
  usedMargin_ p1 = usedMargin_ p /\
  meanEntryPrices_ p1 = meanEntryPrices_ p /\
  borrowedMargin_ p1 = borrowedMargin_ p /\
  requiredMargin_ p1 = requiredMargin_ p /\
  assets_ p1 = assets_ p /\ currentPrices_ p1 = currentPrices_ p /\
  (forall k, k <> c -> assetIdx_ p1 !! k = assetIdx_ p !! k) /\
  is_Some (assetIdx_ p1 !! c) /\
  op_index_code c p1 = (p1, snd (op_index_code c p)).
Proof.
  unfold op_index_code. destruct (assetIdx_ p !! c) as [i|] eqn:E; cbn [fst snd].
  - rewrite E. repeat split; eauto.
  - repeat split; try reflexivity.
    + intros k Hk. cbn. now rewrite lookup_insert_ne.
    + cbn. rewrite lookup_insert_eq. eauto.
    + cbn. rewrite lookup_insert_eq. reflexivity.
Qed.

(** X10: once [operator[]] has been evaluated with a code that was not in the
    index map, [close] with that code is [close] on index 0; for a code that
    is in the index map with an index below 2^31, [close] with the code is
    [close] on that index. *)
Theorem close_string_delegates (p : Portfolio) (c : string) (price cost : Q) :
  (assetIdx_ p !! c = None ->
   close_string c price cost (fst (op_index_code c p))
     = close_int 0 price cost (fst (op_index_code c p))) /\
  (forall i, assetIdx_ p !! c = Some i -> (Z.of_nat i < 2 ^ 31)%Z ->
     close_string c price cost p = close_int (Z.of_nat i) price cost p).
Proof.
  split.
  - intros H. unfold op_index_code. rewrite H. cbn [fst].
    unfold close_string. cbn [assetIdx_ set_assetIdx].
    rewrite lookup_insert_eq. reflexivity.
  - intros i H Hi. unfold close_string. rewrite H. unfold int_of_unsigned.
    destruct (Z.ltb_spec (Z.of_nat i) (2 ^ 31)); [reflexivity|lia].
Qed.

(** X10 on the leveraged portfolio: the code "bogus" after indexing, and the
    registered code "X". *)
Lemma close_string_delegates_leveraged :
  close_string "bogus" 10 0 (fst (op_index_code "bogus" leveraged_portfolio))
    = close_int 0 10 0 (fst (op_index_code "bogus" leveraged_portfolio)) /\
  close_string "X" 10 0 leveraged_portfolio
    = close_int 0 10 0 leveraged_portfolio.
Proof.
  destruct (close_string_delegates leveraged_portfolio "bogus" 10 0) as [H _].
  destruct (close_string_delegates leveraged_portfolio "X" 10 0) as [_ H'].
  split; [apply H; reflexivity|].
  apply (H' 0%nat); [reflexivity|]. vm_compute. reflexivity.
Defined.

End PortfolioMore.

(** ** More on the generator Synth and on composites *)

Module SynthMore.
Import DataSource SynthFacts.
Local Open Scope R_scope.

Lemma push_assets_names (n i : nat) (l : list string) :
  push_assets i n l = l ++ map sine_name (seq i n).
Proof.
  revert i l. induction n as [|n IH]; intros i l; cbn.
  - now rewrite app_nil_r.
  - rewrite IH, <- app_assoc. reflexivity.
Qed.

Lemma sine_name_inj : Inj (=) (=) sine_name.
Proof.
  intros i j H. unfold sine_name in H.
  apply (inj (String.append "sine_")) in H. now apply (inj pretty) in H.
Qed.

(** X11: a generator made from vectors of one length has one asset per
    frequency, named sine_0, sine_1, ... in order, no two alike; its asset
    and feature counts are the number of frequencies, and its abscissas
    start at the phases. *)
Theorem Synth_of_vectors_assets (f m a ph : list R) (d : R) (s : Synth) :
  Synth_of_vectors f m a ph d = Return s ->
  assets s = map sine_name (seq 0 (length f)) /\
  NoDup (assets s) /\
  nAssets s = length f /\
  nFeats s = Z.of_nat (length f) /\
  x s = ph /\ initPhase s = ph /\ dX s = d.
Proof.
  intros H. destruct (Synth_of_vectors_Return _ _ _ _ _ _ H) as (-> & _).
  assert (Ha : assets (initParams f m a ph d Synth_fresh)
               = map sine_name (seq 0 (length f))).
  { cbn. now rewrite push_assets_names. }
  split; [exact Ha|]. split.
  - rewrite Ha. apply NoDup_fmap_2; [apply sine_name_inj|apply NoDup_seq].
  - cbn. rewrite length_push_assets. cbn. repeat split; reflexivity.
Qed.

(** X11 on the default parameter vectors. *)
Lemma Synth_of_vectors_assets_default :
  assets Synth_default = ["sine_0"; "sine_1"; "sine_2"; "sine_3"]%string /\
  nAssets Synth_default = 4%nat.
Proof.
  destruct (Synth_of_vectors_assets
              [1; 3 / 10; 2; 1 / 2] [2; 21 / 10; 22 / 10; 23 / 10]
              [1; 12 / 10; 13 / 10; 1] [0; 1; 2; 1] (1 / 100)
              Synth_default eq_refl) as (Ha & _ & Hn & _).
  split; [exact Ha|exact Hn].
Defined.

(** X12: every observation of a generator made from vectors of one length
    lies within the amplitude of its asset around the mean of its asset. *)
Theorem Synth_observation_bounded (f m a ph : list R) (d : R) (s0 : Synth)
    (t : nat) :
  Synth_of_vectors f m a ph d = Return s0 ->
  exists s s' obs,
    advance t s0 = (s, Return tt) /\
    getData s = (s', Return obs) /\
    forall i mi ai v,
      m !! i = Some mi -> a !! i = Some ai -> obs !! i = Some v ->
      mi - Rabs ai <= v <= mi + Rabs ai.
Proof.
  intros Hctor.
  destruct (Synth_observation f m a ph d s0 t Hctor)
    as (s & s' & obs & Hadv & Hrun & Hlen & Hobs).
  destruct (Synth_of_vectors_Return _ _ _ _ _ _ Hctor) as (_ & Lm & La & Lp).
  exists s, s', obs. split; [exact Hadv|]. split; [exact Hrun|].
  intros i mi ai v Hm Ha Hv.
  assert (Hi : (i < length f)%nat).
  { apply lookup_lt_Some in Hm. lia. }
  destruct (lookup_lt_is_Some_2 f i) as [fi Hf]; [lia|].
  destruct (lookup_lt_is_Some_2 ph i) as [pi Hp]; [lia|].
  rewrite (Hobs i fi mi ai pi Hf Hm Ha Hp) in Hv. inversion Hv; subst v.
  unfold code_price.
  pose proof (SIN_bound (PI2 * (pi + INR t * d) * fi)) as [Hlo Hhi].
  unfold Rabs. destruct (Rcase_abs ai); nra.
Qed.

(** X12 on the default parameters: the second asset stays within 1.2 of
    2.1. *)
Lemma Synth_observation_bounded_default :
  exists s s' obs,
    advance 5 Synth_default = (s, Return tt) /\
    getData s = (s', Return obs) /\
    forall v, obs !! 1%nat = Some v ->
      21 / 10 - Rabs (12 / 10) <= v <= 21 / 10 + Rabs (12 / 10).
Proof.
  destruct (Synth_observation_bounded
              [1; 3 / 10; 2; 1 / 2] [2; 21 / 10; 22 / 10; 23 / 10]
              [1; 12 / 10; 13 / 10; 1] [0; 1; 2; 1] (1 / 100)
              Synth_default 5 eq_refl) as (s & s' & obs & Hadv & Hrun & H).
  exists s, s', obs. split; [exact Hadv|]. split; [exact Hrun|].
  intros v Hv. apply (H 1%nat); [reflexivity|reflexivity|exact Hv].
Defined.

(** X13: when [k] steps of an asset make a whole number of cycles, that is
    when [freq_i * dX * k] is a natural number, the observations of the asset
    repeat every [k] calls. *)
Theorem Synth_observation_periodic (f m a ph : list R) (d : R) (s0 : Synth)
    (t k cycles i : nat) (fi : R) :
  Synth_of_vectors f m a ph d = Return s0 ->
  f !! i = Some fi ->
  fi * d * INR k = INR cycles ->
  exists s1 s1' obs1 s2 s2' obs2,
    advance t s0 = (s1, Return tt) /\ getData s1 = (s1', Return obs1) /\
    advance (t + k) s0 = (s2, Return tt) /\ getData s2 = (s2', Return obs2) /\
    is_Some (obs1 !! i) /\ obs2 !! i = obs1 !! i.
Proof.
  intros Hctor Hf Hk.
  destruct (Synth_observation f m a ph d s0 t Hctor)
    as (s1 & s1' & obs1 & Hadv1 & Hrun1 & _ & Hobs1).
  destruct (Synth_observation f m a ph d s0 (t + k) Hctor)
    as (s2 & s2' & obs2 & Hadv2 & Hrun2 & _ & Hobs2).
  destruct (Synth_of_vectors_Return _ _ _ _ _ _ Hctor) as (_ & Lm & La & Lp).
  assert (Hi : (i < length f)%nat) by (eapply lookup_lt_Some; eauto).
  destruct (lookup_lt_is_Some_2 m i) as [mi Hm]; [lia|].
  destruct (lookup_lt_is_Some_2 a i) as [ai Ha]; [lia|].
  destruct (lookup_lt_is_Some_2 ph i) as [pi Hp]; [lia|].
  exists s1, s1', obs1, s2, s2', obs2.
  repeat (split; [assumption|]).
  rewrite (Hobs1 i fi mi ai pi Hf Hm Ha Hp), (Hobs2 i fi mi ai pi Hf Hm Ha Hp).
  split; [eauto|]. f_equal. unfold code_price, PI2. do 2 f_equal.
  rewrite plus_INR.
  replace (2 * PI * (pi + (INR t + INR k) * d) * fi)
    with (2 * PI * (pi + INR t * d) * fi + 2 * (fi * d * INR k) * PI) by ring.
  rewrite Hk. apply sin_period.
Qed.

(** X13 on one asset of frequency 2 with steps of 1/100: the observations
    repeat every 50 calls. *)
Lemma Synth_observation_periodic_example :
  exists s1 s1' obs1 s2 s2' obs2,
    advance 3 (initParams [2] [0] [1] [0] (1 / 100) Synth_fresh)
      = (s1, Return tt) /\ getData s1 = (s1', Return obs1) /\
    advance (3 + 50) (initParams [2] [0] [1] [0] (1 / 100) Synth_fresh)
      = (s2, Return tt) /\ getData s2 = (s2', Return obs2) /\
    is_Some (obs1 !! 0%nat) /\ obs2 !! 0%nat = obs1 !! 0%nat.
Proof.
  apply (Synth_observation_periodic [2] [0] [1] [0] (1 / 100) _ 3 50 1 0 2).
  - reflexivity.
  - reflexivity.
  - rewrite !INR_IZR_INZ. cbn. field.
Defined.

Lemma check_keys_present (params : Config) (keys : list string) :
  Forall (fun key => is_Some (params !! key)) keys ->
  check_keys params keys = Return tt.
Proof.
  induction 1 as [|key keys [v Hv] _ IH]; cbn; [reflexivity|].
  now rewrite Hv.
Qed.

(** What the configuration constructor builds from well-typed parameters. *)
Lemma Synth_of_Config_typed (config params : Config) (f m a ph : list R)
    (d : R) :
  config !! "generator_params" = Some (any_Config params) ->
  typed_params params f m a ph d ->
  Synth_of_Config config = Return (initParams f m a ph d Synth_fresh).
Proof.
  intros Hgp (Hf & Hm & Ha & Hp & Hd). unfold Synth_of_Config.
  rewrite Hgp. cbn [any_cast_Config obind].
  rewrite check_keys_present
    by (repeat constructor; rewrite ?Hf, ?Hm, ?Ha, ?Hp, ?Hd; eauto).
  cbn [obind]. unfold Config_index. rewrite Hf, Hm, Ha, Hp, Hd. reflexivity.
Qed.

(** X14: on generator parameters that hold the five required keys with
    vectors of one length and a step, the configuration constructor builds
    the very generator the typed constructor builds from those values;
    whatever other keys the configuration or its parameters hold makes no
    difference. *)
Theorem Synth_of_Config_agrees (config params : Config) (f m a ph : list R)
    (d : R) :
  config !! "generator_params" = Some (any_Config params) ->
  typed_params params f m a ph d ->
  length f = length m -> length m = length a -> length a = length ph ->
  Synth_of_Config config = Synth_of_vectors f m a ph d.
Proof.
  intros Hgp Ht L1 L2 L3. rewrite (Synth_of_Config_typed _ _ _ _ _ _ _ Hgp Ht).
  unfold Synth_of_vectors. rewrite L1, L2, L3, !Nat.eqb_refl. reflexivity.
Qed.

(** X14 on the configuration for one asset, which also holds a key "noise"
    that the constructor does not read. *)
Lemma Synth_of_Config_agrees_one_asset :
  Synth_of_Config one_asset_config = Synth_of_vectors [2] [5] [1] [0] (1 / 100).
Proof.
  apply (Synth_of_Config_agrees one_asset_config
           (<[ "freq"%string := any_vector [2] ]>
            (<[ "mu"%string := any_vector [5] ]>
             (<[ "amp"%string := any_vector [1] ]>
              (<[ "phase"%string := any_vector [0] ]>
               (<[ "dX"%string := any_double (1 / 100) ]>
                (<[ "noise"%string := any_double 3 ]> ∅))))))).
  - reflexivity.
  - repeat split; reflexivity.
  - reflexivity.
  - reflexivity.
  - reflexivity.
Defined.

Lemma check_keys_outcome (params : Config) (keys : list string) :
  check_keys params keys = Return tt \/
  check_keys params keys = Throw ConfigError.
Proof.
  induction keys as [|key keys IH]; cbn; [now left|].
  destruct (params !! key); [exact IH|now right].
Qed.

(** X15: whenever the configuration constructor returns, the configuration
    holds generator parameters with the five required keys at their types,
    and the generator is built from exactly those values: the constructor
    never falls back on the default parameters. *)
Theorem Synth_of_Config_Return (config : Config) (s : Synth) :
  Synth_of_Config config = Return s ->
  exists params f m a ph d,
    config !! "generator_params" = Some (any_Config params) /\
    typed_params params f m a ph d /\
    s = initParams f m a ph d Synth_fresh.
Proof.
  unfold Synth_of_Config.
  destruct (config !! "generator_params") as [g|] eqn:Hgp; [|discriminate].
  destruct g as [|?|?|params|?]; cbn [any_cast_Config obind];
    try discriminate.
  destruct (check_keys_outcome params ["freq"; "mu"; "amp"; "phase"; "dX"]%string)
    as [Hk|Hk]; rewrite Hk; cbn [obind]; [|discriminate].
  unfold Config_index.
  destruct ((params : Config) !! "freq") as [[|?|f|?|?]|] eqn:Ef; cbn;
    try discriminate.
  destruct ((params : Config) !! "mu") as [[|?|m|?|?]|] eqn:Em; cbn;
    try discriminate.
  destruct ((params : Config) !! "amp") as [[|?|a|?|?]|] eqn:Ea; cbn;
    try discriminate.
  destruct ((params : Config) !! "phase") as [[|?|ph|?|?]|] eqn:Ep; cbn;
    try discriminate.
  destruct ((params : Config) !! "dX") as [[|d|?|?|?]|] eqn:Ed; cbn; try discriminate.
  intros H. inversion H.
  exists params, f, m, a, ph, d. unfold typed_params. repeat split; auto.
Qed.

(** X15 on the configuration for one asset. *)
Lemma Synth_of_Config_Return_one_asset :
  exists params f m a ph d,
    one_asset_config !! "generator_params" = Some (any_Config params) /\
    typed_params params f m a ph d /\
    initParams [2] [5] [1] [0] (1 / 100) Synth_fresh
      = initParams f m a ph d Synth_fresh.
Proof.
  apply (Synth_of_Config_Return one_asset_config). reflexivity.
Defined.

(** X16: how the configuration constructor fails.  Without generator
    parameters, or with generator parameters that lack one of the five
    required keys, it throws [ConfigError], whatever the types of the other
    values; with generator parameters that are not a configuration, or with
    all five keys present and a value of another type among them, it throws
    the cast error of [std::any_cast].  It throws nothing else and never
    leaves the defined behaviour. *)
Theorem Synth_of_Config_failures (config : Config) :
  (config !! "generator_params" = None ->
   Synth_of_Config config = Throw ConfigError) /\
  (forall g, config !! "generator_params" = Some g ->
     (forall params, g <> any_Config params) ->
     Synth_of_Config config = Throw bad_any_cast) /\
  (forall params key,
     config !! "generator_params" = Some (any_Config params) ->
     key ∈ ["freq"; "mu"; "amp"; "phase"; "dX"]%string ->
     params !! key = None ->
     Synth_of_Config config = Throw ConfigError) /\
  (forall params,
     config !! "generator_params" = Some (any_Config params) ->
     Forall (fun key => is_Some (params !! key))
       ["freq"; "mu"; "amp"; "phase"; "dX"]%string ->
     (forall f m a ph d, ~ typed_params params f m a ph d) ->
     Synth_of_Config config = Throw bad_any_cast) /\
  (Synth_of_Config config <> Undefined /\
   forall e, Synth_of_Config config = Throw e ->
             e = ConfigError \/ e = bad_any_cast).
Proof.
  split; [apply Synth_of_Config_no_generator_params|].
  split.
  { intros g Hg Hn. unfold Synth_of_Config. rewrite Hg.
    destruct g; try reflexivity. now destruct (Hn c). }
  split; [intros params key; apply Synth_of_Config_missing_key|].
  split.
  { intros params Hgp Hall Hn. unfold Synth_of_Config. rewrite Hgp.
    cbn [any_cast_Config obind]. rewrite (check_keys_present _ _ Hall).
    cbn [obind]. unfold Config_index. unfold typed_params in Hn.
    destruct ((params : Config) !! "freq") as [[|?|f|?|?]|]; cbn;
      try reflexivity.
    destruct ((params : Config) !! "mu") as [[|?|m|?|?]|]; cbn;
      try reflexivity.
    destruct ((params : Config) !! "amp") as [[|?|a|?|?]|]; cbn;
      try reflexivity.
    destruct ((params : Config) !! "phase") as [[|?|ph|?|?]|]; cbn;
      try reflexivity.
    destruct ((params : Config) !! "dX") as [[|d|?|?|?]|]; cbn;
      try reflexivity.
    exfalso. apply (Hn f m a ph d). repeat split; reflexivity. }
  unfold Synth_of_Config.
  destruct (config !! "generator_params") as [[|?|?|params|?]|];
    cbn [any_cast_Config obind];
    try (split; [discriminate|intros e [= <-]; auto]).
  destruct (check_keys_outcome params ["freq"; "mu"; "amp"; "phase"; "dX"]%string)
    as [Hk|Hk]; rewrite Hk; cbn [obind];
    [|split; [discriminate|intros e [= <-]; auto]].
  unfold Config_index.
  destruct ((params : Config) !! "freq") as [[|?|f|?|?]|]; cbn;
    try (split; [discriminate|intros e [= <-]; auto]).
  destruct ((params : Config) !! "mu") as [[|?|m|?|?]|]; cbn;
    try (split; [discriminate|intros e [= <-]; auto]).
  destruct ((params : Config) !! "amp") as [[|?|a|?|?]|]; cbn;
    try (split; [discriminate|intros e [= <-]; auto]).
  destruct ((params : Config) !! "phase") as [[|?|ph|?|?]|]; cbn;
    try (split; [discriminate|intros e [= <-]; auto]).
  destruct ((params : Config) !! "dX") as [[|d|?|?|?]|]; cbn;
    split; try discriminate; intros e [= <-]; auto.
Qed.

(** X16 on configurations without generator parameters, with generator
    parameters of another type, and with a step of another type. *)
Lemma Synth_of_Config_failures_examples :
  Synth_of_Config ∅ = Throw ConfigError /\
  Synth_of_Config {[ "generator_params"%string := any_double 1 ]}
    = Throw bad_any_cast /\
  Synth_of_Config
    {[ "generator_params"%string :=
         any_Config (<[ "freq"%string := any_string "fast" ]> ∅) ]}
    = Throw ConfigError.
Proof.
  split; [|split].
  - apply (Synth_of_Config_failures ∅). reflexivity.
  - destruct (Synth_of_Config_failures
                {[ "generator_params"%string := any_double 1 ]})
      as (_ & H & _).
    apply (H (any_double 1)); [reflexivity|discriminate].
  - destruct (Synth_of_Config_failures
                {[ "generator_params"%string :=
                     any_Config (<[ "freq"%string := any_string "fast" ]> ∅) ]})
      as (_ & _ & H & _).
    apply (H (<[ "freq"%string := any_string "fast" ]> ∅) "mu"%string);
      [reflexivity| |reflexivity].
    apply list_elem_of_In. cbn. auto.
Defined.

(** X17: [reset] does not rewind the periodic generator.  After [t] calls
    and a [reset], the next call returns the observation of step [t], not
    that of step 0, and [currentData] and [currentPrices] then both read
    that observation. *)
Theorem Synth_reset_keeps_step (f m a ph : list R) (d : R) (s0 : Synth)
    (t : nat) :
  Synth_of_vectors f m a ph d = Return s0 ->
  exists s s' obs,
    advance t s0 = (s, Return tt) /\
    x (reset s) = x s /\
    getData (reset s) = (s', Return obs) /\
    currentData s' = obs /\ currentPrices s' = obs /\
    forall i fi mi ai pi,
      f !! i = Some fi -> m !! i = Some mi -> a !! i = Some ai ->
      ph !! i = Some pi ->
      obs !! i = Some (mi + ai * sin (2 * PI * fi * (pi + INR t * d))).
Proof.
  intros Hctor.
  destruct (Synth_of_vectors_Return _ _ _ _ _ _ Hctor) as (-> & Hm & Ha & Hp).
  destruct (advance_after f m a ph d t 0 _ Hp
              (after_initParams f m a ph d Hm Ha Hp)) as (s & Hadv & Hafter).
  destruct (after_getData _ _ _ _ _ _ _ Hp Hafter)
    as (s' & Hrun & _ & Hlen & Hobs).
  exists s, s', (currentData_ s'). split; [exact Hadv|].
  split; [reflexivity|]. split; [exact Hrun|].
  split; [reflexivity|]. split; [reflexivity|].
  intros i fi mi ai pi Hf' Hm' Ha' Hp'.
  rewrite <- code_price_formula. now apply Hobs.
Qed.

(** X17 on the default parameters, after two calls. *)
Lemma Synth_reset_keeps_step_default :
  exists s s' obs,
    advance 2 Synth_default = (s, Return tt) /\
    getData (reset s) = (s', Return obs) /\
    obs !! 0%nat = Some (2 + 1 * sin (2 * PI * 1 * (0 + INR 2 * (1 / 100)))).
Proof.
  destruct (Synth_reset_keeps_step
              [1; 3 / 10; 2; 1 / 2] [2; 21 / 10; 22 / 10; 23 / 10]
              [1; 12 / 10; 13 / 10; 1] [0; 1; 2; 1] (1 / 100)
              Synth_default 2 eq_refl)
    as (s & s' & obs & Hadv & _ & Hrun & _ & _ & Hobs).
  exists s, s', obs. split; [exact Hadv|]. split; [exact Hrun|].
  apply (Hobs 0%nat); reflexivity.
Defined.

Lemma reset_sources_Synth (i : nat) (sources : list Source) :
  Forall (fun src => exists s, src = Source_of_Synth s) sources ->
  fst (reset_sources i sources) = sources.
Proof.
  intros H. revert i. induction H as [|src sources [s ->] _ IH]; intros i;
    cbn; [reflexivity|].
  specialize (IH (S i)). destruct (reset_sources (S i) sources) as [rest calls].
  cbn in IH |- *. now rewrite IH.
Qed.

(** X18: [reset] on a composite whose children are all periodic generators
    leaves the composite and every child exactly as they were. *)
Theorem Composite_reset_of_Synths (c : Composite) :
  Forall (fun src => exists s, src = Source_of_Synth s) (dataSources_ c) ->
  fst (Composite_reset c) = c.
Proof.
  intros H. unfold Composite_reset.
  pose proof (reset_sources_Synth 0 (dataSources_ c) H) as Hr.
  destruct (reset_sources 0 (dataSources_ c)) as [sources' calls].
  cbn in Hr |- *. subst sources'. now destruct c.
Qed.

(** X18 on a composite of two default generators, one of them advanced. *)
Lemma Composite_reset_of_Synths_example :
  let c := {| dataSources_ :=
                [Source_of_Synth Synth_default;
                 Source_of_Synth (fst (Synth_getData Synth_default))];
              c_currentPrices_ := []; c_currentData_ := [];
              c_timestamp_ := 7; c_nFeats_ := 8 |} in
  fst (Composite_reset c) = c.
Proof.
  intros c. apply Composite_reset_of_Synths. subst c. cbn [dataSources_].
  repeat constructor; eexists; reflexivity.
Defined.

End SynthMore.

(** ** The reward ratios *)

Module RatiosFacts.
Import Ratios.
Local Open Scope Q_scope.

Lemma add_scaled_minus (n r : Q) (a : list Q) :
  add_scaled n a (map (fun ai => r - ai) a)
    = map (fun ai => ai + n * (r - ai)) a.
Proof.
  unfold add_scaled. induction a as [|ai a IH]; cbn; [reflexivity|].
  now rewrite IH.
Qed.

(** One update of a [DDR], entry by entry. *)
Lemma DDR_update_entries (r : Q) (self : DDR) :
  ddr_A (DDR_update_parameters r self)
    = map (fun ai => ai + ddr_n self * (r - ai)) (ddr_A self) /\
  ddr_B (DDR_update_parameters r self)
    = map (fun bi => bi + ddr_n self * (Qmin r 0 ^ 2 - bi)) (ddr_B self) /\
  ddr_n (DDR_update_parameters r self) = ddr_n self.
Proof.
  unfold DDR_update_parameters. cbn. now rewrite !add_scaled_minus.
Qed.

Lemma mix_between (n lo hi r a : Q) :
  0 <= n -> n <= 1 -> lo <= r -> r <= hi -> lo <= a -> a <= hi ->
  lo <= a + n * (r - a) /\ a + n * (r - a) <= hi.
Proof.
  intros Hn0 Hn1 Hr1 Hr2 Ha1 Ha2.
  assert (E : a + n * (r - a) == (1 - n) * a + n * r) by ring.
  rewrite E. split; nra.
Qed.

Lemma DDR_update_ok (nassets : nat) (lo hi r : Q) (self : DDR) :
  0 <= ddr_n self -> ddr_n self <= 1 -> lo <= r -> r <= hi ->
  DDR_ok nassets lo hi self ->
  DDR_ok nassets lo hi (DDR_update_parameters r self).
Proof.
  intros Hn0 Hn1 Hr1 Hr2 (LA & LB & HA & HB).
  destruct (DDR_update_entries r self) as (EA & EB & _).
  unfold DDR_ok. rewrite EA, EB, !length_map.
  split; [exact LA|]. split; [exact LB|]. split.
  - apply Forall_fmap. eapply Forall_impl; [exact HA|].
    intros a [Ha1 Ha2]. cbn. now apply mix_between.
  - apply Forall_fmap. eapply Forall_impl; [exact HB|].
    intros b Hb. cbn.
    assert (Hsq : 0 <= Qmin r 0 ^ 2).
    { change (Qmin r 0 ^ 2) with (Qmin r 0 * Qmin r 0). nra. }
    assert (E : b + ddr_n self * (Qmin r 0 ^ 2 - b)
                == (1 - ddr_n self) * b + ddr_n self * Qmin r 0 ^ 2) by ring.
    rewrite E. set (sq := Qmin r 0 ^ 2) in *. clearbody sq.
    cbn beta in Hb. clear - Hn0 Hn1 Hb Hsq. nra.
Qed.

Lemma DDR_init_ok (n : Q) (nassets : nat) (lo hi : Q) :
  lo <= 0 -> 0 <= hi -> DDR_ok nassets lo hi (DDR_init n nassets).
Proof.
  intros Hlo Hhi. unfold DDR_ok, DDR_init. cbn. rewrite !repeat_length.
  split; [reflexivity|]. split; [reflexivity|].
  split; apply Forall_forall; intros q Hq; apply list_elem_of_In in Hq;
    apply repeat_spec in Hq; subst q; [split; assumption|apply Qle_refl].
Qed.

(** X19: a new [DDR] with an adaptation rate between 0 and 1, fed any list
    of scalar returns between [lo <= 0] and [hi >= 0], keeps one entry per
    asset in each array, keeps every mean between [lo] and [hi], keeps every
    downside average at or above 0, and keeps its rate. *)
Theorem DDR_updates_ok (n : Q) (nassets : nat) (lo hi : Q) (returns : list Q) :
  0 <= n -> n <= 1 -> lo <= 0 -> 0 <= hi ->
  Forall (fun r => lo <= r /\ r <= hi) returns ->
  DDR_ok nassets lo hi (DDR_updates returns (DDR_init n nassets)) /\
  ddr_n (DDR_updates returns (DDR_init n nassets)) = n.
Proof.
  intros Hn0 Hn1 Hlo Hhi Hall. unfold DDR_updates.
  assert (G : forall self,
            ddr_n self = n -> DDR_ok nassets lo hi self ->
            DDR_ok nassets lo hi
              (fold_left (fun s r => DDR_update_parameters r s) returns self)
            /\ ddr_n (fold_left (fun s r => DDR_update_parameters r s)
                        returns self) = n).
  { induction Hall as [|r returns [Hr1 Hr2] _ IH]; intros self Hn Hok;
      cbn [fold_left]; [split; assumption|].
    apply IH; [exact Hn|].
    apply DDR_update_ok; try assumption; rewrite Hn; assumption. }
  apply G; [reflexivity|now apply DDR_init_ok].
Qed.

(** X19 on a rate of 1/1000, one asset and three returns. *)
Lemma DDR_updates_ok_example :
  DDR_ok 1 (- 2) 3
    (DDR_updates [1; - 2; 3] (DDR_init (1 # 1000) 1)) /\
  ddr_n (DDR_updates [1; - 2; 3] (DDR_init (1 # 1000) 1)) = 1 # 1000.
Proof.
  apply (DDR_updates_ok (1 # 1000) 1 (- 2) 3 [1; - 2; 3]);
    try (vm_compute; discriminate).
  repeat constructor; vm_compute; discriminate.
Defined.

Lemma square_nonneg (y : Q) : 0 <= y ^ 2.
Proof. change (y ^ 2) with (y * y). nra. Qed.

Lemma square_below_kept (n r a b : Q) :
  0 <= n -> n <= 1 -> a ^ 2 <= b ->
  (a + n * (r - a)) ^ 2 <= b + n * (r ^ 2 - b).
Proof.
  intros Hn0 Hn1 Hab.
  assert (E : b + n * (r ^ 2 - b) - (a + n * (r - a)) ^ 2
              == (1 - n) * (b - a ^ 2) + n * (1 - n) * (r - a) ^ 2) by ring.
  assert (H1 : 0 <= (1 - n) * (b - a ^ 2)).
  { apply Qmult_le_0_compat; [lra|].
    revert Hab. generalize (a ^ 2). intros sq Hab. lra. }
  assert (H2 : 0 <= n * (1 - n) * (r - a) ^ 2).
  { apply Qmult_le_0_compat; [apply Qmult_le_0_compat; lra|].
    apply square_nonneg. }
  revert E H1 H2.
  generalize ((1 - n) * (b - a ^ 2)) (n * (1 - n) * (r - a) ^ 2)
             (b + n * (r ^ 2 - b)) ((a + n * (r - a)) ^ 2).
  intros X Y P S E H1 H2. lra.
Qed.

Lemma DSR_update_ok (nassets : nat) (r : Q) (self : DSR) :
  0 <= dsr_n self -> dsr_n self <= 1 ->
  DSR_ok nassets self ->
  exists self',
    DSR_update_parameters r self = Ok self' /\
    dsr_n self' = dsr_n self /\ DSR_ok nassets self'.
Proof.
  intros Hn0 Hn1 (a & b & Ha & Hb & La & Lb & Hab).
  unfold DSR_update_parameters, scalar_minus. rewrite Ha, Hb. cbn.
  eexists. split; [reflexivity|]. split; [reflexivity|].
  exists (map (fun ai => ai + dsr_n self * (r - ai)) a),
         (map (fun bi => bi + dsr_n self * (r ^ 2 - bi)) b).
  cbn. rewrite !add_scaled_minus, !length_map.
  repeat split; try assumption.
  apply Forall2_fmap. eapply Forall2_impl; [exact Hab|].
  intros ai bi Hi. cbn. now apply square_below_kept.
Qed.

(** X20: the parameters of a [DSR] cannot be updated before its first call,
    when its arrays are still [None]: [update_parameters] raises
    [TypeError].  Once the arrays of zeros are installed, with an adaptation
    rate between 0 and 1, any list of scalar returns is absorbed without
    error and every average of squares stays at or above the square of the
    matching average, so that [B - A**2] is never negative. *)
Theorem DSR_updates_ok (n : Q) (nassets : nat) (returns : list Q) :
  0 <= n -> n <= 1 ->
  (forall r k, DSR_update_parameters r (DSR_init n k) = TypeError) /\
  exists self',
    DSR_updates returns (DSR_zeros nassets (DSR_init n nassets)) = Ok self' /\
    dsr_n self' = n /\ DSR_ok nassets self'.
Proof.
  intros Hn0 Hn1. split; [reflexivity|].
  assert (G : forall self,
            dsr_n self = n -> DSR_ok nassets self ->
            exists self', DSR_updates returns self = Ok self' /\
                          dsr_n self' = n /\ DSR_ok nassets self').
  { induction returns as [|r returns IH]; intros self Hn Hok; cbn.
    - exists self. auto.
    - destruct (DSR_update_ok nassets r self) as (s1 & Hrun & Hn1' & Hok1);
        try (rewrite Hn; assumption); [exact Hok|].
      rewrite Hrun. apply IH; [congruence|exact Hok1]. }
  apply G; [reflexivity|].
  exists (repeat 0 nassets), (repeat 0 nassets). cbn.
  rewrite !repeat_length. repeat split; try reflexivity.
  clear. induction nassets as [|k IH]; cbn; constructor; [|exact IH].
  vm_compute. discriminate.
Qed.

(** X20 on a rate of 1/1000, one asset and three returns. *)
Lemma DSR_updates_ok_example :
  DSR_update_parameters 1 (DSR_init (1 # 1000) 1) = TypeError /\
  exists self',
    DSR_updates [1; - 2; 3] (DSR_zeros 1 (DSR_init (1 # 1000) 1)) = Ok self' /\
    DSR_ok 1 self'.
Proof.
  destruct (DSR_updates_ok (1 # 1000) 1 [1; - 2; 3]) as (Hnone & s & Hrun & _ & Hok);
    try (vm_compute; discriminate).
  split; [apply Hnone|]. exists s. split; [exact Hrun|exact Hok].
Defined.

End RatiosFacts.
